(** * GeoData Hub (IMAC-ICV): link discovery, discovery cache and
      fetch-and-bundle pipeline of [Scripts/app_imac_pro.py].

    The development embeds the two core functions of the script,
    [obter_links_download] and [processar_downloads], as Rocq functions.
    The network, the clock and the file system are explicit arguments:
    - a page request is answered by an oracle from URLs to responses;
    - a download attempt is answered by an oracle that says how far the
      body of the [try] block got before an exception was raised;
    - [download_dir] is a finite map from the names of its files to their
      contents, and the path [download_dir / fname] of a download is
      followed through the temporary directory to the file it names.

    Text is modelled as [string], one character per byte. The operations
    of [str] that depend on the character set ([upper], [lower], [strip])
    are those of Python on ASCII text, which is what every configured term
    is; a statement that rests on the value of one of them on a term or on
    the text of a page carries the hypothesis [so_ascii] on that text. *)

From Stdlib Require Import ZArith QArith Ascii String List Lia.
From stdpp Require Import gmap strings list.

#[local] Set Warnings "-clear-no-such-hyp".

Open Scope string_scope.

(* String concatenation is unfolded by [simpl] on a constructor, as list
   concatenation is. *)
#[local] Arguments String.append !_ _ / : simpl nomatch.

(** ** Python [str] operations used by the script *)

Module Texto.

(** The character is one of the 128 of ASCII, and the text has no other. *)
Definition e_ascii (c : ascii) : bool := (nat_of_ascii c <? 128)%nat.

Fixpoint so_ascii (s : string) : bool :=
  match s with
  | EmptyString => true
  | String c r => e_ascii c && so_ascii r
  end.

(** [c.upper()] for one ASCII character. *)
Definition upper_char (c : ascii) : ascii :=
  let n := nat_of_ascii c in
  if (97 <=? n)%nat && (n <=? 122)%nat then ascii_of_nat (n - 32) else c.

(** [c.lower()] for one ASCII character. *)
Definition lower_char (c : ascii) : ascii :=
  let n := nat_of_ascii c in
  if (65 <=? n)%nat && (n <=? 90)%nat then ascii_of_nat (n + 32) else c.

(** [s.upper()] and [s.lower()] on ASCII text: character by character. A
    byte outside ASCII is kept; on such text [str.upper] can do otherwise
    (it may even lengthen the text), so a statement about the case mapping
    of a text assumes [so_ascii] of it. *)
Fixpoint upper (s : string) : string :=
  match s with
  | EmptyString => EmptyString
  | String c r => String (upper_char c) (upper r)
  end.

Fixpoint lower (s : string) : string :=
  match s with
  | EmptyString => EmptyString
  | String c r => String (lower_char c) (lower r)
  end.

(** [s.startswith(p)]. *)
Fixpoint startswith (s p : string) {struct p} : bool :=
  match p, s with
  | EmptyString, _ => true
  | String _ _, EmptyString => false
  | String x p', String y s' => Ascii.eqb x y && startswith s' p'
  end.

(** [agulha in palheiro] on [str]: substring test. *)
Fixpoint contem (agulha palheiro : string) : bool :=
  startswith palheiro agulha ||
  match palheiro with
  | EmptyString => false
  | String _ r => contem agulha r
  end.

(** [s[n:]]. *)
Fixpoint saltar (n : nat) (s : string) : string :=
  match n, s with
  | O, _ => s
  | S _, EmptyString => EmptyString
  | S k, String _ r => saltar k r
  end.

(** [s.endswith(suf)] for one suffix. *)
Definition endswith (s suf : string) : bool :=
  String.eqb (saltar (String.length s - String.length suf) s) suf.

(** [s.endswith(tuple)]: true when some suffix of the tuple fits. *)
Definition endswith_any (s : string) (sufs : list string) : bool :=
  existsb (endswith s) sufs.

(** Whitespace of [str.strip()] within ASCII: [\t \n \v \f \r], the
    separators 0x1c-0x1f and the space. [str.strip()] also removes the
    whitespace that Unicode has outside ASCII (the no-break space, for
    one): [strip] below is [str.strip()] on ASCII text. *)
Definition is_space (c : ascii) : bool :=
  let n := nat_of_ascii c in
  ((9 <=? n)%nat && (n <=? 13)%nat) || ((28 <=? n)%nat && (n <=? 32)%nat).

Fixpoint lstrip (s : string) : string :=
  match s with
  | EmptyString => EmptyString
  | String c r => if is_space c then lstrip r else s
  end.

Fixpoint rstrip (s : string) : string :=
  match s with
  | EmptyString => EmptyString
  | String c r =>
      match rstrip r with
      | EmptyString => if is_space c then EmptyString else String c EmptyString
      | r' => String c r'
      end
  end.

Definition strip (s : string) : string := rstrip (lstrip s).

(** *** What "case-insensitively" means

    Two texts are equal ignoring case when they have the same case
    folding; a term occurs in a text ignoring case when some factor of
    the text equals the term ignoring case; a text ends in an extension
    ignoring case when some suffix of it equals the extension ignoring
    case. *)

Definition igual_ci (a b : string) : Prop := lower a = lower b.

Definition ocorre_ci (termo s : string) : Prop :=
  exists pre meio pos, s = pre ++ meio ++ pos /\ igual_ci meio termo.

Definition termina_ci (s ext : string) : Prop :=
  exists pre fim, s = pre ++ fim /\ igual_ci fim ext.

End Texto.

Import Texto.

(** ** Data of the link resolver *)

(** One [<a href=...>] element of a parsed page, as
    [soup.find_all('a', href=True)] returns it: [link['href']] and
    [link.get_text()]. *)
Record Ancora := { href : string; get_text : string }.

(** One entry of [tarefas]; [alvos] is a [dict] from term to output file
    name, kept as the list of its items in insertion order, the order in
    which [.items()] yields them. *)
Record Tarefa := { nome : string; url : string; alvos : list (string * string) }.

(** One entry of [links_para_baixar]: the dict with the keys [url],
    [filename] and [origem]. *)
Record Link := { item_url : string; filename : string; origem : string }.

(** What [requests.get(tarefa['url'], ...)] gives: an exception (timeout,
    refused connection, name resolution) or a response with its status code
    and the anchors that [BeautifulSoup(r.text)] finds in its body, in
    document order. *)
Inductive Resposta :=
| ErroDeRede
| Http (status_code : nat) (ancoras : list Ancora).

(** [r.raise_for_status()] raises [HTTPError] on a 4xx or 5xx status. *)
Definition raise_for_status (status_code : nat) : bool :=
  (400 <=? status_code)%nat && (status_code <? 600)%nat.

(** The exceptions that the [try] block of one source can raise. *)
Inductive Excecao :=
| RequestException
| HTTPError (status_code : nat)
| ValueError.

(** The fetch of a page fails when the request raises or the status is an
    error status. *)
Definition busca_falhou (r : Resposta) : bool :=
  match r with
  | ErroDeRede => true
  | Http status_code _ => raise_for_status status_code
  end.

(** The two entries of the list [tarefas] of the script, and the list. *)
Definition tarefa_licenciamento : Tarefa :=
  {| nome := "LICENCIAMENTO";
     url := "https://imac.ac.gov.br/licenciamento/";
     alvos := [ ("SUPRESSAO", "imac_supressao.zip");
                ("USO-ALTERNATIVO", "imac_uso_alternativo.zip") ] |}.

Definition tarefa_fiscalizacao : Tarefa :=
  {| nome := "FISCALIZACAO";
     url := "https://imac.ac.gov.br/fiscalizacao-autuacoes/";
     alvos := [ ("Embargos_Adm_IMAC_2025", "imac_embargos_2025.zip");
                ("Embargos_adm_IMAC_2024", "imac_embargos_2024.zip") ] |}.

Definition tarefas : list Tarefa := [tarefa_licenciamento; tarefa_fiscalizacao].

(** [match_found]: the term is in the href or in the stripped text, both
    compared in upper case. *)
Definition match_found (termo : string) (link : Ancora) : bool :=
  contem (upper termo) (upper (href link)) ||
  contem (upper termo) (upper (strip (get_text link))).

(** [is_zip]: the whole href, in lower case, ends in [.zip] or [.rar]. *)
Definition is_zip (link : Ancora) : bool :=
  endswith_any (lower (href link)) [".zip"; ".rar"].

(** The condition of the [if] in the inner loop. *)
Definition casa (termo : string) (link : Ancora) : bool :=
  match_found termo link && is_zip link.

(** Outcome of the inner loop [for link in links] for one term: no anchor
    matched, one link was appended before the [break], or [urljoin]
    raised on the matching anchor. *)
Inductive Busca :=
| Nenhum
| Achou (l : Link)
| Levantou (e : Excecao).

(** State of one run of the resolver: the list being built, the page
    requests issued and the errors logged by the [except] clause. *)
Record Varredura := {
  links_para_baixar : list Link;
  pedidos : list string;
  erros : list (string * Excecao)
}.

Section Resolver.

(** [urllib.parse.urljoin]: [None] stands for the [ValueError] it raises
    on a reference it cannot split (an unbalanced bracket in the host). *)
Variable urljoin : string -> string -> option string.

(** [for link in links: ...] for one [(termo, nome_final)]. *)
Fixpoint varrer_links (tarefa : Tarefa) (termo nome_final : string)
    (links : list Ancora) : Busca :=
  match links with
  | [] => Nenhum
  | link :: resto =>
      if casa termo link then
        match urljoin (url tarefa) (href link) with
        | Some full_url =>
            Achou {| item_url := full_url; filename := nome_final;
                     origem := nome tarefa |}
        | None => Levantou ValueError
        end
      else varrer_links tarefa termo nome_final resto
  end.

(** [for termo, nome_final in tarefa['alvos'].items(): ...], appending to
    [acc]. The list is returned with what was appended before an exception
    left the loop, and with that exception. *)
Fixpoint varrer_alvos (tarefa : Tarefa) (links : list Ancora)
    (itens : list (string * string)) (acc : list Link)
    : list Link * option Excecao :=
  match itens with
  | [] => (acc, None)
  | (termo, nome_final) :: resto =>
      match varrer_links tarefa termo nome_final links with
      | Nenhum => varrer_alvos tarefa links resto acc
      | Achou l => varrer_alvos tarefa links resto (acc ++ [l])
      | Levantou e => (acc, Some e)
      end
  end.

(** The body of the [try] for one source. *)
Definition corpo_try (resposta : Resposta) (tarefa : Tarefa) (acc : list Link)
    : list Link * option Excecao :=
  match resposta with
  | ErroDeRede => (acc, Some RequestException)
  | Http status_code ancoras =>
      if raise_for_status status_code then (acc, Some (HTTPError status_code))
      else varrer_alvos tarefa ancoras (alvos tarefa) acc
  end.

(** One iteration of [for tarefa in tarefas]: the [try] body, and the
    [except Exception] that logs and continues. *)
Definition passo (web : string -> Resposta) (v : Varredura) (tarefa : Tarefa)
    : Varredura :=
  let '(acc, exc) := corpo_try (web (url tarefa)) tarefa (links_para_baixar v) in
  {| links_para_baixar := acc;
     pedidos := pedidos v ++ [url tarefa];
     erros := match exc with
              | Some e => erros v ++ [(url tarefa, e)]
              | None => erros v
              end |}.

(** The loop over the sources, from a given state. *)
Definition varrer_de (web : string -> Resposta) (ts : list Tarefa) (v : Varredura)
    : Varredura :=
  fold_left (passo web) ts v.

Definition varredura_inicial : Varredura :=
  {| links_para_baixar := []; pedidos := []; erros := [] |}.

(** The resolver over a list of sources. *)
Definition varrer (web : string -> Resposta) (ts : list Tarefa) : Varredura :=
  varrer_de web ts varredura_inicial.

(** The undecorated function body: the resolver on the script's [tarefas]. *)
Definition obter_links_download (web : string -> Resposta) : list Link :=
  links_para_baixar (varrer web tarefas).

(** What one source adds to the result. *)
Definition contribuicao (web : string -> Resposta) (tarefa : Tarefa) : list Link :=
  fst (corpo_try (web (url tarefa)) tarefa []).

(** The link that the scan of one term yields, if any. *)
Definition achado (tarefa : Tarefa) (links : list Ancora)
    (alvo : string * string) : option Link :=
  match varrer_links tarefa (fst alvo) (snd alvo) links with
  | Achou l => Some l
  | _ => None
  end.

End Resolver.

(** ** Discovery cache *)

(** Modelled from the spec: the decorator [st.cache_data(ttl=3600)] on
    [obter_links_download] is Streamlit's and its code is not part of the
    repository. The entry, its expiry ([now - computedAt > ttlSeconds]) and
    the single process-wide slot are those of sections 3 and 4.2 of the
    specification; time is the number of seconds on the process clock. *)
Record DiscoveryCacheEntry := {
  result : list Link;
  computedAt : Z;
  ttlSeconds : Z
}.

(** [ttl=3600] of the decorator. *)
Definition ttl : Z := 3600.

Definition expirada (now : Z) (e : DiscoveryCacheEntry) : bool :=
  (ttlSeconds e <? now - computedAt e)%Z.

(** A cache slot holds a valid entry at [now]. *)
Definition valida (now : Z) (cache : option DiscoveryCacheEntry) : bool :=
  match cache with
  | Some e => negb (expirada now e)
  | None => false
  end.

(** One call of the decorated function: what it returns, the page requests
    it issued and the cache slot it leaves. *)
Record Chamada := {
  retorno : list Link;
  rede_usada : list string;
  cache_depois : option DiscoveryCacheEntry
}.

(** Modelled from the spec: a valid entry is returned without any network
    activity; otherwise the resolver runs on the web as it is at [now] and
    its result replaces the entry. *)
Definition getLinks (urljoin : string -> string -> option string)
    (web : Z -> string -> Resposta) (now : Z)
    (cache : option DiscoveryCacheEntry) : Chamada :=
  match cache with
  | Some e =>
      if expirada now e then
        let v := varrer urljoin (web now) tarefas in
        {| retorno := links_para_baixar v;
           rede_usada := pedidos v;
           cache_depois := Some {| result := links_para_baixar v;
                                   computedAt := now; ttlSeconds := ttl |} |}
      else {| retorno := result e; rede_usada := []; cache_depois := cache |}
  | None =>
      let v := varrer urljoin (web now) tarefas in
      {| retorno := links_para_baixar v;
         rede_usada := pedidos v;
         cache_depois := Some {| result := links_para_baixar v;
                                 computedAt := now; ttlSeconds := ttl |} |}
  end.

(** ** Fetch-and-bundle pipeline: [processar_downloads] *)

(** What the streamed body [r.raw] gives to [shutil.copyfileobj]: all its
    bytes, or an exception (reset connection, read timeout, write error)
    after [parcial] was already written to the destination. *)
Inductive Corpo :=
| CorpoCompleto (dados : list Byte.byte)
| CorpoInterrompido (parcial : list Byte.byte).

(** What [requests.get(url, ..., stream=True)] gives for one download. *)
Inductive Download :=
| SemResposta
| RespostaHttp (status_code : nat) (corpo : Corpo).

(** How far the body of the [try] got for one link: nothing was written
    ([requests.get], [raise_for_status] or [open] raised), the destination
    was opened and the copy raised, or the copy finished. *)
Inductive Efeito :=
| NadaEscrito
| EscritoParcial (parcial : list Byte.byte)
| EscritoInteiro (dados : list Byte.byte).

(** *** Where [download_dir / fname] lands

    [path_destino = download_dir / fname] is built by [pathlib], on a POSIX
    system: an absolute [fname] replaces [download_dir]; otherwise the
    components of [fname] are appended, the empty ones and ["."] dropped
    and [".."] kept for the file system to follow. [open] then walks the
    path. While the loop runs, [temp_dir] holds the directory [dados_imac]
    and plain files, and [download_dir] holds plain files only: a path that
    goes through anything else, or that names a directory, makes [open]
    raise. *)

(** [fname.split('/')]. *)
Fixpoint partir_aux (s atual : string) : list string :=
  match s with
  | EmptyString => [atual]
  | String c r =>
      if Ascii.eqb c "/" then atual :: partir_aux r ""
      else partir_aux r (atual ++ String c "")
  end.

Definition partir (s : string) : list string := partir_aux s "".

(** The components that [pathlib] keeps. *)
Definition partes (fname : string) : list string :=
  List.filter (fun p => negb (String.eqb p "") && negb (String.eqb p "."))
    (partir fname).

(** Where the file of a download is: directly in [download_dir], under a
    name; directly in [temp_dir], beside [download_dir]; nowhere, because
    [open] raises on the path; or at a place that is not followed here (an
    absolute path, or one that climbs above [temp_dir]). *)
Inductive Destino :=
| Membro (nome : string)
| Vizinho (nome : string)
| NaoAbre
| Desconhecido.

(** The walk of [open] along the components, from [download_dir]
    ([em_download_dir = true]) or from [temp_dir]. *)
Fixpoint andar (em_download_dir : bool) (ps : list string) : Destino :=
  match ps with
  | [] => NaoAbre
  | p :: resto =>
      match resto with
      | [] =>
          if String.eqb p ".." then NaoAbre
          else if em_download_dir then Membro p
          else if String.eqb p "dados_imac" then NaoAbre
          else Vizinho p
      | _ :: _ =>
          if em_download_dir then
            if String.eqb p ".." then andar false resto else NaoAbre
          else if String.eqb p ".." then Desconhecido
          else if String.eqb p "dados_imac" then andar true resto
          else NaoAbre
      end
  end.

Definition destino (fname : string) : Destino :=
  if startswith fname "/" then Desconhecido
  else andar true (partes fname).

(** The path can be opened, as far as it is followed. *)
Definition pode_abrir (fname : string) : bool :=
  match destino fname with
  | NaoAbre => false
  | _ => true
  end.

(** [download_dir] after [dados] was written at [download_dir / fname]:
    only a file directly in [download_dir] is one of its files. *)
Definition gravar (fname : string) (dados : list Byte.byte)
    (d : gmap string (list Byte.byte)) : gmap string (list Byte.byte) :=
  match destino fname with
  | Membro n => <[n := dados]> d
  | _ => d
  end.

(** The statements of the [try] in order; [abre] tells whether
    [open(path_destino, 'wb')] succeeds. *)
Definition tentar (d : Download) (abre : bool) : Efeito :=
  match d with
  | SemResposta => NadaEscrito
  | RespostaHttp status_code corpo =>
      if raise_for_status status_code then NadaEscrito
      else if abre then
        match corpo with
        | CorpoCompleto dados => EscritoInteiro dados
        | CorpoInterrompido parcial => EscritoParcial parcial
        end
      else NadaEscrito
  end.

(** The two lines appended to [log_execucao]. *)
Definition linha_sucesso (item : Link) : string :=
  "✅ **" ++ filename item ++ "**: Sucesso (" ++ origem item ++ ")".

Definition linha_falha (item : Link) : string :=
  "❌ **" ++ filename item ++ "**: Falha no download".

(** A line of the log records a success or a failure by its mark. *)
Definition e_sucesso (linha : string) : bool := startswith linha "✅".
Definition e_falha (linha : string) : bool := startswith linha "❌".

(** Local state of [processar_downloads]: the files of [download_dir], the
    log, the counter and the values given to the progress bar. *)
Record Estado := {
  download_dir : gmap string (list Byte.byte);
  log_execucao : list string;
  sucesso_count : nat;
  progresso : list Q
}.

(** Exceptions that no [try] of [processar_downloads] catches. *)
Inductive Falha :=
| ZeroDivisionError
| StreamlitAPIException.

(** [a / b] on [int]: true division, which raises on a zero divisor. *)
Definition dividir (a b : nat) : Falha + Q :=
  if (b =? 0)%nat then inl ZeroDivisionError
  else inr (Z.of_nat a # Pos.of_nat b).

(** [progresso.progress(v)]: the bar refuses a value outside [0.0, 1.0]. *)
Definition progress (barra : list Q) (v : Q) : Falha + list Q :=
  if Qle_bool 0 v && Qle_bool v 1 then inr (barra ++ [v])%list
  else inl StreamlitAPIException.

(** The [try]/[except] of one iteration: what was copied before the end
    of the [try] is in the file at [download_dir / fname], and the line of
    the log tells whether the copy finished. *)
Definition baixar (ef : Efeito) (item : Link) (e : Estado) : Estado :=
  match ef with
  | NadaEscrito =>
      {| download_dir := download_dir e;
         log_execucao := log_execucao e ++ [linha_falha item];
         sucesso_count := sucesso_count e;
         progresso := progresso e |}
  | EscritoParcial parcial =>
      {| download_dir := gravar (filename item) parcial (download_dir e);
         log_execucao := log_execucao e ++ [linha_falha item];
         sucesso_count := sucesso_count e;
         progresso := progresso e |}
  | EscritoInteiro dados =>
      {| download_dir := gravar (filename item) dados (download_dir e);
         log_execucao := log_execucao e ++ [linha_sucesso item];
         sucesso_count := sucesso_count e + 1;
         progresso := progresso e |}
  end.

Section Pipeline.

(** The network at the [idx]-th download, and the file system at [open]:
    [abre fname] tells whether [open] accepts a path that can be opened
    (permissions, room on the disk, a name that the system takes). *)
Variable rede : nat -> string -> Download.
Variable abre : string -> bool.

(** The effect of the attempt on the item at position [idx]. *)
Definition efeito (idx : nat) (item : Link) : Efeito :=
  tentar (rede idx (item_url item))
         (pode_abrir (filename item) && abre (filename item)).

(** [for idx, item in enumerate(lista_links)] from position [idx] on;
    [total] is [len(lista_links)]. *)
Fixpoint laco (total idx : nat) (itens : list Link) (e : Estado)
    : Falha + Estado :=
  match itens with
  | [] => inr e
  | item :: resto =>
      let e1 := baixar (efeito idx item) item e in
      match dividir (idx + 1) total with
      | inl x => inl x
      | inr v =>
          match progress (progresso e1) v with
          | inl x => inl x
          | inr barra =>
              laco total (S idx) resto
                {| download_dir := download_dir e1;
                   log_execucao := log_execucao e1;
                   sucesso_count := sucesso_count e1;
                   progresso := barra |}
          end
      end
  end.

End Pipeline.

(** [datetime.now()]: the fields of a [datetime]. *)
Record DataHora := {
  ano : nat; mes : nat; dia : nat;
  hora : nat; minuto : nat; segundo : nat
}.

(** The ranges of the fields of a [datetime] ([MINYEAR = 1],
    [MAXYEAR = 9999]). *)
Definition data_valida (d : DataHora) : Prop :=
  (1 <= Z.of_nat (ano d) <= 9999)%Z /\
  (1 <= mes d <= 12 /\ 1 <= dia d <= 31 /\
   hora d <= 23 /\ minuto d <= 59 /\ segundo d <= 59)%nat.

Definition digito (n : nat) : ascii := ascii_of_nat (48 + n mod 10).

(** Decimal digits of [n], most significant first. *)
Fixpoint decimal_aux (fuel n : nat) (acc : string) : string :=
  match fuel with
  | O => acc
  | S f =>
      let acc' := String (digito n) acc in
      if (n / 10 =? 0)%nat then acc' else decimal_aux f (n / 10) acc'
  end.

Definition decimal (n : nat) : string := decimal_aux (S n) n "".

Fixpoint zeros (n : nat) : string :=
  match n with
  | O => ""
  | S k => String "0" (zeros k)
  end.

(** [s.zfill(w)]: zero padding on the left up to width [w]. *)
Definition zfill (w : nat) (s : string) : string :=
  zeros (w - String.length s) ++ s.

(** [strftime("%Y%m%d_%H%M")]: the year on four digits, then month, day,
    hour and minute on two digits each; the seconds are not printed. *)
Definition strftime_Ymd_HM (d : DataHora) : string :=
  zfill 4 (decimal (ano d)) ++ zfill 2 (decimal (mes d)) ++
  zfill 2 (decimal (dia d)) ++ "_" ++
  zfill 2 (decimal (hora d)) ++ zfill 2 (decimal (minuto d)).

(** What [processar_downloads] returns, [(caminho_zip, log_execucao,
    temp_dir)], together with what it leaves outside: the members of the
    archive written at [caminho_zip] and the values shown by the bar. *)
Record Saida := {
  caminho_zip : string;
  logs : list string;
  temp_folder : string;
  membros_zip : gmap string (list Byte.byte);
  barra : list Q
}.

(** The state before the loop: an empty [download_dir], an empty log and
    [st.progress(0)]. *)
Definition estado_inicial : Estado :=
  {| download_dir := ∅; log_execucao := []; sucesso_count := 0;
     progresso := [0%Q] |}.

(** [processar_downloads(lista_links)]. [temp_dir] is the directory that
    [tempfile.mkdtemp()] created and [agora] is [datetime.now()].
    [shutil.make_archive(base_name, 'zip', root_dir=download_dir)] writes
    [base_name + ".zip"] with every file of [download_dir] as a member. *)
Definition processar_downloads (temp_dir : string) (agora : DataHora)
    (rede : nat -> string -> Download) (abre : string -> bool)
    (lista_links : list Link) : Falha + Saida :=
  match laco rede abre (length lista_links) 0 lista_links estado_inicial with
  | inl x => inl x
  | inr e =>
      let timestamp := strftime_Ymd_HM agora in
      let nome_zip := "Geodata_IMAC_" ++ timestamp in
      inr {| caminho_zip := temp_dir ++ "/" ++ nome_zip ++ ".zip";
             logs := log_execucao e;
             temp_folder := temp_dir;
             membros_zip := download_dir e;
             barra := progresso e |}
  end.

(** [os.path.basename]: what follows the last ['/']. *)
Fixpoint basename_aux (s acc : string) : string :=
  match s with
  | EmptyString => acc
  | String c r =>
      if Ascii.eqb c "/" then basename_aux r ""
      else basename_aux r (acc ++ String c "")
  end.

Definition basename (s : string) : string := basename_aux s "".

(** *** Vocabulary of the statements about the pipeline *)

Definition e_digito (c : ascii) : bool :=
  (48 <=? nat_of_ascii c)%nat && (nat_of_ascii c <=? 57)%nat.

Fixpoint so_digitos (s : string) : bool :=
  match s with
  | EmptyString => true
  | String c r => e_digito c && so_digitos r
  end.

(** The number that a string of decimal digits writes. *)
Fixpoint valor_aux (s : string) (acc : nat) : nat :=
  match s with
  | EmptyString => acc
  | String c r => valor_aux r (10 * acc + (nat_of_ascii c - 48))
  end.

Definition valor (s : string) : nat := valor_aux s 0.

(** A field of [w] digits that writes [n]. *)
Definition campo (w n : nat) (s : string) : Prop :=
  String.length s = w /\ so_digitos s = true /\ valor s = n.

(** No ['/'] in the text. *)
Fixpoint sem_barra (s : string) : bool :=
  match s with
  | EmptyString => true
  | String c r => negb (Ascii.eqb c "/") && sem_barra r
  end.

(** A plain file name: no directory part, and neither empty nor ["."] nor
    [".."]. *)
Definition nome_simples (fname : string) : bool :=
  sem_barra fname && negb (String.eqb fname "") &&
  negb (String.eqb fname ".") && negb (String.eqb fname "..").

(** The path [download_dir / fname] is followed to the end: it is not
    absolute and does not climb above [temp_dir]. *)
Definition seguido (fname : string) : bool :=
  match destino fname with
  | Desconhecido => false
  | _ => true
  end.

(** Writing at [download_dir / fname] may touch the file [f] of
    [download_dir]: the path is that file, or it is not followed. *)
Definition alcanca (f fname : string) : bool :=
  match destino fname with
  | Membro n => String.eqb n f
  | Desconhecido => true
  | _ => false
  end.

Section Vocabulario.

Variable rede : nat -> string -> Download.
Variable abre : string -> bool.

(** The links whose download finished, from position [idx] on. *)
Fixpoint sucedidos (idx : nat) (itens : list Link) : list Link :=
  match itens with
  | [] => []
  | item :: resto =>
      match efeito rede abre idx item with
      | EscritoInteiro _ => item :: sucedidos (S idx) resto
      | _ => sucedidos (S idx) resto
      end
  end.

(** The links whose download raised. *)
Fixpoint falhados (idx : nat) (itens : list Link) : list Link :=
  match itens with
  | [] => []
  | item :: resto =>
      match efeito rede abre idx item with
      | EscritoInteiro _ => falhados (S idx) resto
      | _ => item :: falhados (S idx) resto
      end
  end.

(** The links whose download raised after the destination was opened. *)
Fixpoint interrompidos (idx : nat) (itens : list Link) : list Link :=
  match itens with
  | [] => []
  | item :: resto =>
      match efeito rede abre idx item with
      | EscritoParcial _ => item :: interrompidos (S idx) resto
      | _ => interrompidos (S idx) resto
      end
  end.

(** The line that the iteration on [item] appends to the log. *)
Definition linha (idx : nat) (item : Link) : string :=
  match efeito rede abre idx item with
  | EscritoInteiro _ => linha_sucesso item
  | _ => linha_falha item
  end.

Fixpoint linhas (idx : nat) (itens : list Link) : list string :=
  match itens with
  | [] => []
  | item :: resto => linha idx item :: linhas (S idx) resto
  end.

(** The files of [download_dir] after the iterations on [itens]: each
    download that opened its destination wrote at [download_dir / fname]. *)
Fixpoint escritas (idx : nat) (itens : list Link)
    (d : gmap string (list Byte.byte)) : gmap string (list Byte.byte) :=
  match itens with
  | [] => d
  | item :: resto =>
      escritas (S idx) resto
        match efeito rede abre idx item with
        | NadaEscrito => d
        | EscritoParcial b => gravar (filename item) b d
        | EscritoInteiro b => gravar (filename item) b d
        end
  end.

End Vocabulario.

(** The values given to the bar by the iterations [idx, idx + n):
    [(i + 1) / total]. *)
Definition fracoes (total idx n : nat) : list Q :=
  map (fun i => Z.of_nat (i + 1) # Pos.of_nat total) (seq idx n).

(** *** The path of an href, for the comparison with the specification

    The specification tests the extension on "the href's path". For a
    reference without scheme and host, the path is what precedes the first
    ['?'] or ['#'] (RFC 3986, section 3). *)
Fixpoint caminho_do_href (s : string) : string :=
  match s with
  | EmptyString => EmptyString
  | String c r =>
      if Ascii.eqb c "?" || Ascii.eqb c "#" then EmptyString
      else String c (caminho_do_href r)
  end.

(** The selection as the specification words it: the term occurs, ignoring
    case, in the href or in the visible text, and the path of the href
    ends, ignoring case, in [.zip] or [.rar]. *)
Definition seleciona_pelo_caminho (termo : string) (link : Ancora) : Prop :=
  (ocorre_ci termo (href link) \/ ocorre_ci termo (strip (get_text link))) /\
  (termina_ci (caminho_do_href (href link)) ".zip" \/
   termina_ci (caminho_do_href (href link)) ".rar").

(** *** Vocabulary of the statements about the resolver *)

(** The anchors of a response; a failed request has none. *)
Definition ancoras_de (r : Resposta) : list Ancora :=
  match r with
  | ErroDeRede => []
  | Http _ ancoras => ancoras
  end.

(** The source was fetched: the request returned and the status is not an
    error status. *)
Definition busca_ok (web : string -> Resposta) (tarefa : Tarefa) : bool :=
  negb (busca_falhou (web (url tarefa))).

(** The link built from an anchor resolved to [u] for a target. *)
Definition link_de (tarefa : Tarefa) (u : string) (alvo : string * string) : Link :=
  {| item_url := u; filename := snd alvo; origem := nome tarefa |}.

(** [link] is the first anchor of [antes ++ link :: depois] that passes
    the test for [termo]. *)
Definition primeiro_que_casa (termo : string) (antes : list Ancora)
    (link : Ancora) : Prop :=
  Forall (fun a => casa termo a = false) antes /\ casa termo link = true.

(** What a fetched page should yield for a list of targets, read off the
    page alone: for each target in order, the link made from the first
    anchor, in document order, that passes the test for its term, resolved
    against the URL of the source; a target that no anchor matches gives
    nothing; and the list stops before the first target whose anchor has a
    reference that [urljoin] refuses, because that exception ends the scan
    of the source. *)
Fixpoint links_esperados (urljoin : string -> string -> option string)
    (tarefa : Tarefa) (pagina : list Ancora) (itens : list (string * string))
    : list Link :=
  match itens with
  | nil => nil
  | alvo :: resto =>
      match List.find (casa (fst alvo)) pagina with
      | None => links_esperados urljoin tarefa pagina resto
      | Some a =>
          match urljoin (url tarefa) (href a) with
          | Some u => link_de tarefa u alvo ::
                      links_esperados urljoin tarefa pagina resto
          | None => nil
          end
      end
  end.

(** The first anchor that passes the test for the term of the target has a
    reference that [urljoin] refuses. *)
Definition recusa (urljoin : string -> string -> option string)
    (tarefa : Tarefa) (pagina : list Ancora) (alvo : string * string) : bool :=
  match List.find (casa (fst alvo)) pagina with
  | Some a =>
      match urljoin (url tarefa) (href a) with
      | Some _ => false
      | None => true
      end
  | None => false
  end.

(** The fetch of a page fails, in the words of the amended claims: the
    request raises, or the response has a status from 400 to 599. *)
Definition falha_de_busca (r : Resposta) : bool :=
  match r with
  | ErroDeRede => true
  | Http status_code _ => (400 <=? status_code)%nat && (status_code <=? 599)%nat
  end.

(** A success status of HTTP, 2xx (RFC 9110, section 15.3): what the
    specification calls a success status. *)
Definition status_de_sucesso (status_code : nat) : bool :=
  (200 <=? status_code)%nat && (status_code <? 300)%nat.

(** [urljoin] on the references of the examples: an absolute [http]
    reference is kept, a file name is appended to a base that ends in
    ['/'], and a host with an opening bracket that is never closed raises,
    as [urllib.parse] does ("Invalid IPv6 URL"). *)
Definition urljoin_exemplo (base ref : string) : option string :=
  if contem "[" ref && negb (contem "]" ref) then None
  else if startswith ref "http" then Some ref
  else Some (base ++ ref).

(** *** Pages and downloads used in the examples *)

(** A licensing page: two anchors pass the test for [SUPRESSAO], the
    second anchor first; the [.pdf] anchor names [USO-ALTERNATIVO] but is
    no archive. *)
Definition pagina_licenciamento : list Ancora :=
  [ {| href := "sobre.html"; get_text := "Sobre o licenciamento" |};
    {| href := "arquivos/supressao_2024.zip"; get_text := " Supressao " |};
    {| href := "arquivos/SUPRESSAO_antigo.rar"; get_text := "antigo" |};
    {| href := "arquivos/uso-alternativo.pdf"; get_text := "USO-ALTERNATIVO" |};
    {| href := "https://cdn.exemplo.br/uso.ZIP"; get_text := " uso-alternativo (zip) " |} ].

(** An enforcement page with one archive whose text names both terms. *)
Definition pagina_fiscalizacao : list Ancora :=
  [ {| href := "pacote.zip";
       get_text := "Embargos_Adm_IMAC_2025 e Embargos_Adm_IMAC_2024" |} ].

(** A licensing page whose second archive has a host with an unclosed
    bracket. *)
Definition pagina_com_referencia_ruim : list Ancora :=
  [ {| href := "arquivos/supressao_2024.zip"; get_text := "Supressao" |};
    {| href := "//[uso-alternativo.zip"; get_text := "Uso alternativo" |} ].

(** A licensing page where the archive of the first term has a host with
    an unclosed bracket, and two archives pass the test for the second
    term. *)
Definition pagina_recusa_no_primeiro : list Ancora :=
  [ {| href := "//[supressao.zip"; get_text := "Supressao" |};
    {| href := "arquivos/uso-alternativo.zip"; get_text := "Uso alternativo" |};
    {| href := "arquivos/USO-ALTERNATIVO_antigo.rar"; get_text := "antigo" |} ].

(** A web where the licensing page answers 503 and the enforcement page
    is served. *)
Definition web_licenciamento_fora (u : string) : Resposta :=
  if String.eqb u "https://imac.ac.gov.br/fiscalizacao-autuacoes/"
  then Http 200 pagina_fiscalizacao
  else Http 503 [].

(** A web where both pages are served. *)
Definition web_no_ar (u : string) : Resposta :=
  if String.eqb u "https://imac.ac.gov.br/fiscalizacao-autuacoes/"
  then Http 200 pagina_fiscalizacao
  else Http 200 pagina_licenciamento.

(** A web that serves that page for the licensing source. *)
Definition web_recusa_no_primeiro (u : string) : Resposta :=
  if String.eqb u "https://imac.ac.gov.br/licenciamento/"
  then Http 200 pagina_recusa_no_primeiro
  else Http 200 pagina_fiscalizacao.

(** A web where the enforcement page comes with the status 300 (Multiple
    Choices): no success status, and none that [raise_for_status] raises
    on. *)
Definition web_status_300 (u : string) : Resposta :=
  if String.eqb u "https://imac.ac.gov.br/fiscalizacao-autuacoes/"
  then Http 300 pagina_fiscalizacao
  else Http 200 pagina_licenciamento.

(** Three links, and a fourth that reuses the file name of the first. *)
Definition link_a : Link :=
  {| item_url := "https://imac.ac.gov.br/a"; filename := "imac_supressao.zip";
     origem := "LICENCIAMENTO" |}.

Definition link_b : Link :=
  {| item_url := "https://imac.ac.gov.br/b"; filename := "imac_uso_alternativo.zip";
     origem := "LICENCIAMENTO" |}.

Definition link_c : Link :=
  {| item_url := "https://imac.ac.gov.br/c"; filename := "imac_embargos_2025.zip";
     origem := "FISCALIZACAO" |}.

Definition link_d : Link :=
  {| item_url := "https://imac.ac.gov.br/d"; filename := "imac_supressao.zip";
     origem := "FISCALIZACAO" |}.

(** Two links whose file name has a directory part, and one that spells
    the file name of [link_a] with a leading ["./"]. *)
Definition link_fora_a : Link :=
  {| item_url := "https://imac.ac.gov.br/a"; filename := "../fora.zip";
     origem := "LICENCIAMENTO" |}.

Definition link_fora_d : Link :=
  {| item_url := "https://imac.ac.gov.br/d"; filename := "../fora.zip";
     origem := "FISCALIZACAO" |}.

Definition link_ponto : Link :=
  {| item_url := "https://imac.ac.gov.br/p"; filename := "./imac_supressao.zip";
     origem := "FISCALIZACAO" |}.

(** Every download is served whole; the body is the text of the URL. *)
Definition rede_boa (idx : nat) (u : string) : Download :=
  RespostaHttp 200 (CorpoCompleto (list_byte_of_string u)).

(** The request of the second link is refused. *)
Definition rede_segundo_recusado (idx : nat) (u : string) : Download :=
  if (idx =? 1)%nat then SemResposta else rede_boa idx u.

(** The connection of the second link drops after three bytes. *)
Definition rede_segundo_cortado (idx : nat) (u : string) : Download :=
  if (idx =? 1)%nat
  then RespostaHttp 200 (CorpoInterrompido (list_byte_of_string "PK."))
  else rede_boa idx u.

Definition sempre_abre (fname : string) : bool := true.

(** 4 November 2026, 09:05:59. *)
Definition agora_exemplo : DataHora :=
  {| ano := 2026; mes := 11; dia := 4; hora := 9; minuto := 5; segundo := 59 |}.

(** A web that changes: both pages are served before second 1000, and the
    licensing page is out from then on. *)
Definition web_no_tempo (t : Z) : string -> Resposta :=
  if (t <? 1000)%Z then web_no_ar else web_licenciamento_fora.

(** ** The button handler (the block under [st.button]) *)

(** What the handler shows and logs, call by call. The data of the
    download button is the archive read from [zip_path], kept as its
    members. *)
Inductive Evento :=
| StStatus (label : string)
| StWrite (texto : string)
| StProgress (valor_barra : Q)
| StatusUpdate (label state : string)
| StError (texto : string)
| StSuccess (texto : string)
| StDownloadButton (label : string) (data : gmap string (list Byte.byte))
    (file_name mime : string)
| LoggerInfo (texto : string)
| LoggerWarning (texto : string).

Definition e_botao (ev : Evento) : bool :=
  match ev with
  | StDownloadButton _ _ _ _ => true
  | _ => false
  end.

Definition e_write (ev : Evento) : bool :=
  match ev with
  | StWrite _ => true
  | _ => false
  end.

(** The event goes to the log of the server, not to the page. *)
Definition e_logger (ev : Evento) : bool :=
  match ev with
  | LoggerInfo _ => true
  | LoggerWarning _ => true
  | _ => false
  end.

(** The file names that the targets of the script give to the downloads. *)
Definition nomes_configurados : list string :=
  map snd (concat (map alvos tarefas)).

(** The [try] around [shutil.rmtree(temp_folder)]: [limpeza] is [None]
    when the tree was removed and [Some e] when [rmtree] raised [e]. *)
Definition limpar (limpeza : option string) (temp_folder : string) : Evento :=
  match limpeza with
  | None => LoggerInfo ("Limpeza realizada: " ++ temp_folder)
  | Some e => LoggerWarning ("Não foi possível limpar temp: " ++ e)
  end.

(** The handler from the value of [links] on, that is from what
    [obter_links_download()] returned. The events are returned with the
    exception that ended the handler, if one did. *)
Definition ao_clicar (links : list Link) (temp_dir : string) (agora : DataHora)
    (rede : nat -> string -> Download) (abre : string -> bool)
    (limpeza : option string) : list Evento * option Falha :=
  let inicio :=
    [ StStatus "Processando..."; StWrite "🔍 Verificando site do IMAC..." ]%list in
  match links with
  | nil =>
      ((inicio ++
        [ StatusUpdate "Nenhum link encontrado ou erro de conexão." "error";
          StError "Não foi possível localizar os arquivos. Verifique os logs." ])%list,
       None)
  | _ :: _ =>
      let anuncio :=
        StWrite ("📂 " ++ decimal (length links) ++
                 " arquivos identificados. Iniciando download...") in
      match processar_downloads temp_dir agora rede abre links with
      | inl x => ((inicio ++ [anuncio])%list, Some x)
      | inr s =>
          ((inicio ++ [anuncio] ++ map StProgress (barra s) ++
            map StWrite (logs s) ++
            [ StatusUpdate "Processamento Concluído!" "complete";
              StSuccess "Pacote pronto para download.";
              StDownloadButton "📥 BAIXAR PACOTE UNIFICADO (.ZIP)"
                (membros_zip s) (basename (caminho_zip s)) "application/zip";
              limpar limpeza (temp_folder s) ])%list,
           None)
      end
  end.

(** The handler when the cached call runs the resolver (a cache miss). *)
Definition clique (urljoin : string -> string -> option string)
    (web : string -> Resposta) (temp_dir : string) (agora : DataHora)
    (rede : nat -> string -> Download) (abre : string -> bool)
    (limpeza : option string) : list Evento * option Falha :=
  ao_clicar (obter_links_download urljoin web) temp_dir agora rede abre limpeza.

(** *** More vocabulary *)

(** [d[k] = v] on a [dict] kept as the list of its items: the value of a
    key that is there is replaced in place, a new key goes to the end. *)
Fixpoint atribuir (k v : string) (d : list (string * string))
    : list (string * string) :=
  match d with
  | nil => (k, v) :: nil
  | (k', v') :: r =>
      if String.eqb k' k then (k', v) :: r else (k', v') :: atribuir k v r
  end.

(** The [dict] written with the given items, in order: of two items with
    the same key the first gives the place and the last gives the value. *)
Definition dict_de (itens : list (string * string)) : list (string * string) :=
  fold_left (fun d kv => atribuir (fst kv) (snd kv) d) itens nil.

(** The source with every term rewritten by [f], its targets being the
    [dict] written with the rewritten terms; names, URL and file names are
    kept. *)
Definition com_termos (f : string -> string) (t : Tarefa) : Tarefa :=
  {| nome := nome t; url := url t;
     alvos := dict_de (map (fun alvo => (f (fst alvo), snd alvo)) (alvos t)) |}.

(** No two terms of the source are equal once in upper case, and every
    term is ASCII text. *)
Definition termos_distintos (t : Tarefa) : Prop :=
  NoDup (map (fun alvo => upper (fst alvo)) (alvos t)).

Definition termos_ascii (t : Tarefa) : Prop :=
  Forall (fun alvo => so_ascii (fst alvo) = true) (alvos t).

(** The text is made of whitespace only; its first character, or its last
    one, is no whitespace. *)
Fixpoint so_espacos (s : string) : bool :=
  match s with
  | EmptyString => true
  | String c r => is_space c && so_espacos r
  end.

Definition primeiro_nao_espaco (s : string) : bool :=
  match s with
  | EmptyString => false
  | String c _ => negb (is_space c)
  end.

Fixpoint ultimo_nao_espaco (s : string) : bool :=
  match s with
  | EmptyString => false
  | String c EmptyString => negb (is_space c)
  | String _ r => ultimo_nao_espaco r
  end.

(** The attempt opened the destination file. *)
Definition abriu (ef : Efeito) : bool :=
  match ef with
  | NadaEscrito => false
  | EscritoParcial _ => true
  | EscritoInteiro _ => true
  end.

(** The exception, if any, that ends the [try] body of a source. *)
Definition excecao_da_fonte (urljoin : string -> string -> option string)
    (web : string -> Resposta) (tarefa : Tarefa) : option Excecao :=
  snd (corpo_try urljoin (web (url tarefa)) tarefa nil).

(** The fields of a [datetime] that [strftime("%Y%m%d_%H%M")] prints. *)
Definition ate_o_minuto (d : DataHora) : nat * nat * nat * nat * nat :=
  (ano d, mes d, dia d, hora d, minuto d).

(** No download is answered; every page request fails. *)
Definition rede_muda (idx : nat) (u : string) : Download := SemResposta.

Definition web_fora_do_ar (u : string) : Resposta := ErroDeRede.

(** Every download is served whole except the one at position 2, which
    is cut after three bytes. *)
Definition rede_quarto_cortado (idx : nat) (u : string) : Download :=
  if (idx =? 2)%nat
  then RespostaHttp 200 (CorpoInterrompido (list_byte_of_string "PK."))
  else rede_boa idx u.

(** A page with nothing to download. *)
Definition pagina_sem_arquivos : list Ancora :=
  [ {| href := "sobre.html"; get_text := "Sobre" |};
    {| href := "relatorio_supressao.pdf"; get_text := "SUPRESSAO" |} ]%list.

(** A web that serves the page with the refused reference for the
    licensing source, and one that serves the page without archives. *)
Definition web_referencia_ruim (u : string) : Resposta :=
  if String.eqb u "https://imac.ac.gov.br/licenciamento/"
  then Http 200 pagina_com_referencia_ruim
  else Http 200 pagina_fiscalizacao.

Definition web_sem_arquivos (u : string) : Resposta :=
  if String.eqb u "https://imac.ac.gov.br/licenciamento/"
  then Http 200 pagina_sem_arquivos
  else Http 200 pagina_fiscalizacao.

(** 4 November 2026, 09:05:07: the same minute as [agora_exemplo]. *)
Definition agora_mesmo_minuto : DataHora :=
  {| ano := 2026; mes := 11; dia := 4; hora := 9; minuto := 5; segundo := 7 |}.

(** * Properties

    ** The string operations *)

Module TextoFatos.

Lemma app_vazio_r (s : string) : s ++ "" = s.
Proof. induction s as [|c r IH]; simpl; [reflexivity | now rewrite IH]. Qed.

Lemma app_assoc_s (a b c : string) : (a ++ b) ++ c = a ++ (b ++ c).
Proof. induction a as [|x r IH]; simpl; [reflexivity | now rewrite IH]. Qed.

Lemma length_app_s (a b : string) :
  String.length (a ++ b) = (String.length a + String.length b)%nat.
Proof. induction a as [|x r IH]; simpl; [reflexivity | now rewrite IH]. Qed.

Lemma startswith_spec (b a : string) :
  startswith b a = true <-> exists q, b = a ++ q.
Proof.
  revert b. induction a as [|x r IH]; intros b; simpl.
  - split; [intros _; now exists b | reflexivity].
  - destruct b as [|y t].
    + split; [discriminate | intros [q Hq]; discriminate].
    + rewrite andb_true_iff, Ascii.eqb_eq, IH. split.
      * intros [-> [q ->]]. now exists q.
      * intros [q Hq]. injection Hq as -> ->. split; [reflexivity | now exists q].
Qed.

Lemma contem_spec (n h : string) :
  contem n h = true <-> exists p q, h = p ++ n ++ q.
Proof.
  induction h as [|c r IH]; simpl.
  - rewrite orb_false_r, startswith_spec. split.
    + intros [q Hq]. now exists "", q.
    + intros (p & q & Hpq). destruct p; simpl in Hpq; [now exists q | discriminate].
  - rewrite orb_true_iff, startswith_spec, IH. split.
    + intros [[q Hq] | (p & q & Hpq)].
      * now exists "", q.
      * exists (String c p), q. simpl. now rewrite Hpq.
    + intros (p & q & Hpq). destruct p as [|x p]; simpl in Hpq.
      * left. now exists q.
      * right. exists p, q. congruence.
Qed.

Lemma saltar_app (a b : string) : saltar (String.length a) (a ++ b) = b.
Proof. induction a as [|x r IH]; simpl; [now destruct b | exact IH]. Qed.

Lemma saltar_split (n : nat) (s : string) :
  exists p, s = p ++ saltar n s.
Proof.
  revert s. induction n as [|k IH]; intros s.
  - exists "". now destruct s.
  - destruct s as [|c r]; simpl.
    + now exists "".
    + destruct (IH r) as [p Hp]. exists (String c p). simpl. now rewrite <- Hp.
Qed.

Lemma endswith_spec (s suf : string) :
  endswith s suf = true <-> exists p, s = p ++ suf.
Proof.
  unfold endswith. rewrite String.eqb_eq. split.
  - intros H. destruct (saltar_split (String.length s - String.length suf) s) as [p Hp].
    exists p. now rewrite H in Hp.
  - intros [p ->]. rewrite length_app_s.
    replace (String.length p + String.length suf - String.length suf)%nat
      with (String.length p) by lia.
    apply saltar_app.
Qed.

Lemma app_inj_sufixo (a x b y : string) :
  a ++ x = b ++ y -> String.length x = String.length y -> x = y.
Proof.
  revert b. induction a as [|c r IH]; intros b Heq Hlen.
  - destruct b as [|d t]; simpl in Heq; [exact Heq |].
    apply (f_equal String.length) in Heq. simpl in Heq.
    rewrite length_app_s in Heq. lia.
  - destruct b as [|d t]; simpl in Heq.
    + apply (f_equal String.length) in Heq. simpl in Heq.
      rewrite length_app_s in Heq. lia.
    + injection Heq as _ Heq. now apply (IH t).
Qed.

Lemma upper_app (a b : string) : upper (a ++ b) = upper a ++ upper b.
Proof. induction a as [|x r IH]; simpl; [reflexivity | now rewrite IH]. Qed.

Lemma lower_app (a b : string) : lower (a ++ b) = lower a ++ lower b.
Proof. induction a as [|x r IH]; simpl; [reflexivity | now rewrite IH]. Qed.

Lemma upper_split (s x y : string) :
  upper s = x ++ y -> exists a b, s = a ++ b /\ upper a = x /\ upper b = y.
Proof.
  revert s. induction x as [|c r IH]; intros s H; simpl in H.
  - now exists "", s.
  - destruct s as [|d t]; simpl in H; [discriminate |].
    injection H as Hc Ht. destruct (IH t Ht) as (a & b & -> & Ha & Hb).
    exists (String d a), b. simpl. now rewrite Hc, Ha.
Qed.

Lemma lower_split (s x y : string) :
  lower s = x ++ y -> exists a b, s = a ++ b /\ lower a = x /\ lower b = y.
Proof.
  revert s. induction x as [|c r IH]; intros s H; simpl in H.
  - now exists "", s.
  - destruct s as [|d t]; simpl in H; [discriminate |].
    injection H as Hc Ht. destruct (IH t Ht) as (a & b & -> & Ha & Hb).
    exists (String d a), b. simpl. now rewrite Hc, Ha.
Qed.

Lemma lower_upper_char (c : ascii) : lower_char (upper_char c) = lower_char c.
Proof. destruct c as [[] [] [] [] [] [] [] []]; reflexivity. Qed.

Lemma upper_lower_char (c : ascii) : upper_char (lower_char c) = upper_char c.
Proof. destruct c as [[] [] [] [] [] [] [] []]; reflexivity. Qed.

Lemma lower_upper (s : string) : lower (upper s) = lower s.
Proof.
  induction s as [|c r IH]; simpl; [reflexivity |].
  now rewrite lower_upper_char, IH.
Qed.

Lemma upper_lower (s : string) : upper (lower s) = upper s.
Proof.
  induction s as [|c r IH]; simpl; [reflexivity |].
  now rewrite upper_lower_char, IH.
Qed.

Lemma lower_lower (s : string) : lower (lower s) = lower s.
Proof.
  induction s as [|c r IH]; simpl; [reflexivity |]. rewrite IH. f_equal.
  destruct c as [[] [] [] [] [] [] [] []]; reflexivity.
Qed.

Lemma length_lower (s : string) : String.length (lower s) = String.length s.
Proof. induction s as [|c r IH]; simpl; [reflexivity | now rewrite IH]. Qed.

(** Comparing with [upper] or with [lower] is the same comparison. *)
Lemma igual_ci_upper (a b : string) : igual_ci a b <-> upper a = upper b.
Proof.
  unfold igual_ci. split; intros H.
  - rewrite <- (upper_lower a), <- (upper_lower b). now rewrite H.
  - rewrite <- (lower_upper a), <- (lower_upper b). now rewrite H.
Qed.

(** [termo.upper() in s.upper()] decides the occurrence ignoring case. *)
Lemma contem_upper_spec (termo s : string) :
  contem (upper termo) (upper s) = true <-> ocorre_ci termo s.
Proof.
  rewrite contem_spec. unfold ocorre_ci. split.
  - intros (p & q & H).
    destruct (upper_split _ _ _ H) as (a & b & -> & Ha & Hb).
    destruct (upper_split _ _ _ Hb) as (m & c & -> & Hm & Hc).
    exists a, m, c. split; [reflexivity | now apply igual_ci_upper].
  - intros (pre & meio & pos & -> & Hci).
    exists (upper pre), (upper pos). rewrite !upper_app.
    apply igual_ci_upper in Hci. now rewrite Hci.
Qed.

(** [s.lower().endswith(ext.lower())] decides the ending ignoring case. *)
Lemma endswith_lower_spec (s ext : string) :
  endswith (lower s) (lower ext) = true <-> termina_ci s ext.
Proof.
  rewrite endswith_spec. unfold termina_ci, igual_ci. split.
  - intros [p H]. destruct (lower_split _ _ _ H) as (a & b & -> & _ & Hb).
    now exists a, b.
  - intros (pre & fim & -> & Hci). exists (lower pre).
    now rewrite lower_app, Hci.
Qed.

(** Two endings of the same length, ignoring case, are the same. *)
Lemma termina_ci_unico (s e1 e2 : string) :
  termina_ci s e1 -> termina_ci s e2 ->
  String.length e1 = String.length e2 -> lower e1 = lower e2.
Proof.
  intros (p1 & f1 & H1 & C1) (p2 & f2 & H2 & C2) Hlen.
  unfold igual_ci in *. rewrite <- C1, <- C2.
  apply (app_inj_sufixo (lower p1) _ (lower p2)).
  - rewrite <- !lower_app. congruence.
  - rewrite C1, C2, !length_lower. exact Hlen.
Qed.

End TextoFatos.

Import TextoFatos.

(** ** The match predicate *)

Lemma is_zip_spec (link : Ancora) :
  is_zip link = true <->
  termina_ci (href link) ".zip" \/ termina_ci (href link) ".rar".
Proof.
  unfold is_zip, endswith_any. simpl. rewrite orb_false_r, orb_true_iff.
  rewrite <- (endswith_lower_spec _ ".zip"), <- (endswith_lower_spec _ ".rar").
  reflexivity.
Qed.

Lemma match_found_spec (termo : string) (link : Ancora) :
  match_found termo link = true <->
  ocorre_ci termo (href link) \/ ocorre_ci termo (strip (get_text link)).
Proof.
  unfold match_found. now rewrite orb_true_iff, !contem_upper_spec.
Qed.

Lemma is_zip_exclui (link : Ancora) (ext : string) :
  termina_ci (href link) ext -> String.length ext = 4 ->
  lower ext <> ".zip" -> lower ext <> ".rar" -> is_zip link = false.
Proof.
  intros Hext Hlen Hz Hr. apply not_true_is_false. rewrite is_zip_spec.
  intros [H | H].
  - apply Hz. symmetry. now apply (termina_ci_unico (href link) ".zip" ext).
  - apply Hr. symmetry. now apply (termina_ci_unico (href link) ".rar" ext).
Qed.

(** An anchor that fails the test is passed over: the scan gives what it
    gives on the page without that anchor. *)
Lemma varrer_links_ignora (urljoin : string -> string -> option string)
    (t : Tarefa) (termo nome_final : string) (antes depois : list Ancora)
    (link : Ancora) :
  casa termo link = false ->
  varrer_links urljoin t termo nome_final (antes ++ link :: depois)%list =
  varrer_links urljoin t termo nome_final (antes ++ depois)%list.
Proof.
  intros Hn. induction antes as [|a antes IH]; simpl.
  - now rewrite Hn.
  - now rewrite IH.
Qed.

(** C3, as amended. For a term and an anchor of ASCII text, the test of
    the inner loop holds if and only if the term occurs, ignoring case, in
    the href or in the stripped text of the anchor, and the href itself
    (the whole attribute, query and fragment included) ends, ignoring
    case, in [.zip] or [.rar]. An anchor whose href ends in [.pdf] fails
    the test, whatever the term, and an anchor that fails the test is
    never the one selected: the scan of the page gives what it gives
    without that anchor. *)
Theorem casa_termo_e_extensao (termo : string) (link : Ancora) :
  so_ascii termo = true ->
  so_ascii (href link) = true ->
  so_ascii (get_text link) = true ->
  (casa termo link = true <->
     (ocorre_ci termo (href link) \/ ocorre_ci termo (strip (get_text link))) /\
     (termina_ci (href link) ".zip" \/ termina_ci (href link) ".rar")) /\
  (termina_ci (href link) ".pdf" -> casa termo link = false) /\
  (casa termo link = false ->
     forall urljoin t nome_final antes depois,
       varrer_links urljoin t termo nome_final (antes ++ link :: depois)%list =
       varrer_links urljoin t termo nome_final (antes ++ depois)%list).
Proof.
  intros _ _ _. split; [| split].
  - unfold casa. now rewrite andb_true_iff, match_found_spec, is_zip_spec.
  - intros Hpdf. unfold casa.
    rewrite (is_zip_exclui link ".pdf" Hpdf); [apply andb_false_r | reflexivity | |];
      discriminate.
  - intros Hn urljoin t nome_final antes depois. now apply varrer_links_ignora.
Qed.

(** The amended C3 on anchors of the licensing page: the term is found in
    the href in another case, the [.PDF] sibling is refused, and the scan
    of a page passes over it. *)
Lemma casa_termo_e_extensao_witness :
  casa "SUPRESSAO" {| href := "/docs/Supressao_2024.ZIP"; get_text := " Baixar " |} = true /\
  casa "SUPRESSAO" {| href := "/docs/Supressao_2024.PDF"; get_text := "zip" |} = false /\
  varrer_links urljoin_exemplo tarefa_licenciamento "SUPRESSAO" "imac_supressao.zip"
    ([] ++ {| href := "/docs/Supressao_2024.PDF"; get_text := "zip" |}
        :: [ {| href := "/docs/Supressao_2024.ZIP"; get_text := " Baixar " |} ])%list =
  varrer_links urljoin_exemplo tarefa_licenciamento "SUPRESSAO" "imac_supressao.zip"
    ([] ++ [ {| href := "/docs/Supressao_2024.ZIP"; get_text := " Baixar " |} ])%list.
Proof.
  split; [| split].
  - apply (casa_termo_e_extensao "SUPRESSAO"
             {| href := "/docs/Supressao_2024.ZIP"; get_text := " Baixar " |}
             eq_refl eq_refl eq_refl).
    split.
    + left. exists "/docs/", "Supressao", "_2024.ZIP". split; reflexivity.
    + left. exists "/docs/Supressao_2024", ".ZIP". split; reflexivity.
  - apply (casa_termo_e_extensao "SUPRESSAO"
             {| href := "/docs/Supressao_2024.PDF"; get_text := "zip" |}
             eq_refl eq_refl eq_refl).
    exists "/docs/Supressao_2024", ".PDF". split; reflexivity.
  - apply (casa_termo_e_extensao "SUPRESSAO"
             {| href := "/docs/Supressao_2024.PDF"; get_text := "zip" |}
             eq_refl eq_refl eq_refl).
    reflexivity.
Defined.

(** C3 as the specification words it fails: the href below carries a query
    string, so its path ends in [.zip] and the term occurs in it, yet the
    test of the code, which looks at the end of the whole href, refuses
    the anchor. *)
Lemma casa_ignora_o_caminho :
  seleciona_pelo_caminho "SUPRESSAO"
    {| href := "dados/SUPRESSAO.zip?v=2"; get_text := "Supressao" |} /\
  casa "SUPRESSAO"
    {| href := "dados/SUPRESSAO.zip?v=2"; get_text := "Supressao" |} = false.
Proof.
  split; [| reflexivity]. split.
  - left. exists "dados/", "SUPRESSAO", ".zip?v=2". split; reflexivity.
  - left. exists "dados/SUPRESSAO", ".zip". split; reflexivity.
Qed.

(** ** The link resolver *)

(* From here on [++] is the concatenation of lists; strings are joined
   with [+:+]. *)
Open Scope list_scope.

Section ResolverFatos.

Variable urljoin : string -> string -> option string.

Lemma varrer_alvos_acc (t : Tarefa) (links : list Ancora)
    (itens : list (string * string)) (acc : list Link) :
  varrer_alvos urljoin t links itens acc =
  (acc ++ fst (varrer_alvos urljoin t links itens []),
   snd (varrer_alvos urljoin t links itens [])).
Proof.
  revert acc. induction itens as [|[termo nome_final] resto IH]; intros acc; simpl.
  - now rewrite app_nil_r.
  - destruct (varrer_links urljoin t termo nome_final links) as [|l|e].
    + apply IH.
    + rewrite (IH (acc ++ [l])), (IH [l]). simpl. now rewrite <- app_assoc.
    + simpl. now rewrite app_nil_r.
Qed.

Lemma corpo_try_acc (r : Resposta) (t : Tarefa) (acc : list Link) :
  corpo_try urljoin r t acc =
  (acc ++ fst (corpo_try urljoin r t []), snd (corpo_try urljoin r t [])).
Proof.
  unfold corpo_try. destruct r as [|status_code ancoras]; simpl.
  - now rewrite app_nil_r.
  - destruct (raise_for_status status_code); simpl.
    + now rewrite app_nil_r.
    + apply varrer_alvos_acc.
Qed.

Lemma links_passo (web : string -> Resposta) (v : Varredura) (t : Tarefa) :
  links_para_baixar (passo urljoin web v t) =
  links_para_baixar v ++ contribuicao urljoin web t.
Proof.
  unfold passo, contribuicao.
  rewrite (corpo_try_acc _ _ (links_para_baixar v)). reflexivity.
Qed.

Lemma pedidos_passo (web : string -> Resposta) (v : Varredura) (t : Tarefa) :
  pedidos (passo urljoin web v t) = pedidos v ++ [url t].
Proof.
  unfold passo.
  now destruct (corpo_try urljoin (web (url t)) t (links_para_baixar v)).
Qed.

(** The result is the concatenation, source by source, of what each
    source contributes. *)
Lemma links_varrer_de (web : string -> Resposta) (ts : list Tarefa) (v : Varredura) :
  links_para_baixar (varrer_de urljoin web ts v) =
  links_para_baixar v ++ concat (map (contribuicao urljoin web) ts).
Proof.
  revert v. induction ts as [|t ts IH]; intros v; simpl.
  - now rewrite app_nil_r.
  - unfold varrer_de in *. simpl. rewrite IH, links_passo. now rewrite <- app_assoc.
Qed.

(** Every source is requested once, in order, whatever happened before. *)
Lemma pedidos_varrer_de (web : string -> Resposta) (ts : list Tarefa) (v : Varredura) :
  pedidos (varrer_de urljoin web ts v) = pedidos v ++ map url ts.
Proof.
  revert v. induction ts as [|t ts IH]; intros v; simpl.
  - now rewrite app_nil_r.
  - unfold varrer_de in *. simpl. rewrite IH, pedidos_passo. now rewrite <- app_assoc.
Qed.

Lemma links_varrer (web : string -> Resposta) (ts : list Tarefa) :
  links_para_baixar (varrer urljoin web ts) =
  concat (map (contribuicao urljoin web) ts).
Proof. unfold varrer. now rewrite links_varrer_de. Qed.

Lemma pedidos_varrer (web : string -> Resposta) (ts : list Tarefa) :
  pedidos (varrer urljoin web ts) = map url ts.
Proof. unfold varrer. now rewrite pedidos_varrer_de. Qed.

Lemma links_varrer_app (web : string -> Resposta) (ts1 ts2 : list Tarefa) :
  links_para_baixar (varrer urljoin web (ts1 ++ ts2)) =
  links_para_baixar (varrer urljoin web ts1) ++
  links_para_baixar (varrer urljoin web ts2).
Proof. now rewrite !links_varrer, map_app, concat_app. Qed.

Lemma contribuicao_falha (web : string -> Resposta) (t : Tarefa) :
  busca_falhou (web (url t)) = true -> contribuicao urljoin web t = [].
Proof.
  unfold contribuicao, corpo_try, busca_falhou.
  destruct (web (url t)) as [|status_code ancoras]; [reflexivity |].
  now intros ->.
Qed.

Lemma links_so_das_fontes_ok (web : string -> Resposta) (ts : list Tarefa) :
  links_para_baixar (varrer urljoin web ts) =
  concat (map (contribuicao urljoin web) (List.filter (busca_ok web) ts)).
Proof.
  rewrite links_varrer. induction ts as [|t ts IH]; [reflexivity |].
  simpl. unfold busca_ok at 1.
  destruct (busca_falhou (web (url t))) eqn:Hf; simpl.
  - now rewrite (contribuicao_falha web t Hf).
  - now rewrite IH.
Qed.

End ResolverFatos.

Section ResolverTeoremas.

Variable urljoin : string -> string -> option string.

(** The exception that the [except] clause sees when the fetch fails. *)
Lemma erro_registrado (web : string -> Resposta) (v : Varredura) (t : Tarefa) :
  busca_falhou (web (url t)) = true ->
  exists e, erros (passo urljoin web v t) = erros v ++ [(url t, e)].
Proof.
  unfold passo, corpo_try, busca_falhou.
  destruct (web (url t)) as [|status_code ancoras].
  - intros _. now exists RequestException.
  - intros ->. now exists (HTTPError status_code).
Qed.

Lemma erros_crescem (web : string -> Resposta) (ts : list Tarefa) (v : Varredura) :
  exists mais, erros (varrer_de urljoin web ts v) = erros v ++ mais.
Proof.
  revert v. induction ts as [|t ts IH]; intros v.
  - exists []. simpl. now rewrite app_nil_r.
  - unfold varrer_de in *. simpl. destruct (IH (passo urljoin web v t)) as [m Hm].
    rewrite Hm. unfold passo.
    destruct (corpo_try urljoin (web (url t)) t (links_para_baixar v)) as [acc [e|]]; simpl.
    + exists ((url t, e) :: m). now rewrite <- app_assoc.
    + now exists m.
Qed.

Lemma erro_da_fonte (web : string -> Resposta) (antes depois : list Tarefa) (t : Tarefa) :
  busca_falhou (web (url t)) = true ->
  exists e, In (url t, e) (erros (varrer urljoin web (antes ++ t :: depois))).
Proof.
  intros Hf. unfold varrer, varrer_de. rewrite fold_left_app. simpl.
  set (v := fold_left (passo urljoin web) antes varredura_inicial).
  destruct (erro_registrado web v t Hf) as [e He]. exists e.
  destruct (erros_crescem web depois (passo urljoin web v t)) as [m Hm].
  unfold varrer_de in Hm. rewrite Hm, He. apply in_or_app. left.
  apply in_or_app. right. now left.
Qed.

(** The scan of one term is decided by the first anchor that passes the
    test. *)
Lemma varrer_links_find (t : Tarefa) (termo nome_final : string)
    (links : list Ancora) :
  varrer_links urljoin t termo nome_final links =
  match List.find (casa termo) links with
  | None => Nenhum
  | Some a =>
      match urljoin (url t) (href a) with
      | Some u => Achou (link_de t u (termo, nome_final))
      | None => Levantou ValueError
      end
  end.
Proof.
  induction links as [|a resto IH]; simpl; [reflexivity |].
  destruct (casa termo a); [| exact IH].
  now destruct (urljoin (url t) (href a)).
Qed.

Lemma varrer_alvos_esperados (t : Tarefa) (pagina : list Ancora)
    (itens : list (string * string)) :
  fst (varrer_alvos urljoin t pagina itens []) =
  links_esperados urljoin t pagina itens.
Proof.
  induction itens as [|[termo nome_final] resto IH]; simpl; [reflexivity |].
  rewrite varrer_links_find.
  destruct (List.find (casa termo) pagina) as [a|]; [| exact IH].
  destruct (urljoin (url t) (href a)) as [u|]; [| reflexivity].
  rewrite varrer_alvos_acc. simpl. now rewrite IH.
Qed.

(** What a fetched source contributes is what its page should yield. *)
Lemma contribuicao_esperada (web : string -> Resposta) (t : Tarefa) :
  busca_falhou (web (url t)) = false ->
  contribuicao urljoin web t =
  links_esperados urljoin t (ancoras_de (web (url t))) (alvos t).
Proof.
  unfold contribuicao, corpo_try, busca_falhou.
  destruct (web (url t)) as [|status_code ancoras]; [discriminate |].
  intros ->. apply varrer_alvos_esperados.
Qed.

Lemma falha_de_busca_spec (r : Resposta) : falha_de_busca r = busca_falhou r.
Proof.
  destruct r as [|status_code ancoras]; [reflexivity |].
  unfold falha_de_busca, busca_falhou, raise_for_status.
  destruct (Nat.leb_spec status_code 599), (Nat.ltb_spec status_code 600);
    try reflexivity; lia.
Qed.

Lemma links_das_fontes_buscadas (web : string -> Resposta) (ts : list Tarefa) :
  links_para_baixar (varrer urljoin web ts) =
  concat (map (fun s => links_esperados urljoin s (ancoras_de (web (url s))) (alvos s))
            (List.filter (fun s => negb (falha_de_busca (web (url s)))) ts)).
Proof.
  rewrite links_varrer. induction ts as [|t ts IH]; [reflexivity |].
  simpl. rewrite falha_de_busca_spec.
  destruct (busca_falhou (web (url t))) eqn:Hf; simpl.
  - now rewrite (contribuicao_falha urljoin web t Hf).
  - now rewrite IH, (contribuicao_esperada web t Hf).
Qed.

Lemma links_esperados_app (t : Tarefa) (pagina : list Ancora)
    (pre pos : list (string * string)) :
  Forall (fun alvo => recusa urljoin t pagina alvo = false) pre ->
  links_esperados urljoin t pagina (pre ++ pos) =
  links_esperados urljoin t pagina pre ++ links_esperados urljoin t pagina pos.
Proof.
  induction 1 as [|alvo resto Hr _ IH]; simpl; [reflexivity |].
  unfold recusa in Hr.
  destruct (List.find (casa (fst alvo)) pagina) as [a|]; [| exact IH].
  destruct (urljoin (url t) (href a)) as [u|]; [| discriminate].
  simpl. now rewrite IH.
Qed.

Lemma find_primeiro (termo : string) (antes depois : list Ancora) (link : Ancora) :
  primeiro_que_casa termo antes link ->
  List.find (casa termo) (antes ++ link :: depois) = Some link.
Proof.
  intros [Hantes Hlink]. induction Hantes as [|a antes Ha _ IH]; simpl.
  - now rewrite Hlink.
  - now rewrite Ha.
Qed.

(** C2, as amended. When the fetch of the page of a source fails (the
    request raises, or the status is one on which [raise_for_status]
    raises, 400 to 599), that source contributes no link, the exception is
    logged instead of reaching the caller, every source is still
    requested, and the result is the concatenation of what the sources
    before and after it yield: exactly what the pages of the sources whose
    fetch succeeded should yield, in the order of the sources. *)
Theorem falha_de_fonte_isolada (web : string -> Resposta)
    (antes depois : list Tarefa) (t : Tarefa) :
  falha_de_busca (web (url t)) = true ->
  contribuicao urljoin web t = [] /\
  links_para_baixar (varrer urljoin web (antes ++ t :: depois)) =
    links_para_baixar (varrer urljoin web antes) ++
    links_para_baixar (varrer urljoin web depois) /\
  links_para_baixar (varrer urljoin web (antes ++ t :: depois)) =
    concat (map (fun s => links_esperados urljoin s (ancoras_de (web (url s)))
                            (alvos s))
              (List.filter (fun s => negb (falha_de_busca (web (url s))))
                 (antes ++ depois))) /\
  pedidos (varrer urljoin web (antes ++ t :: depois)) =
    map url (antes ++ t :: depois) /\
  exists e, In (url t, e) (erros (varrer urljoin web (antes ++ t :: depois))).
Proof.
  rewrite falha_de_busca_spec. intros Hf.
  assert (Hsem : links_para_baixar (varrer urljoin web (antes ++ t :: depois)) =
                 links_para_baixar (varrer urljoin web (antes ++ depois))).
  { rewrite !links_varrer_app. f_equal.
    change (t :: depois) with ([t] ++ depois). rewrite links_varrer_app.
    rewrite (links_varrer urljoin web [t]). simpl.
    now rewrite (contribuicao_falha urljoin web t Hf). }
  repeat split.
  - now apply contribuicao_falha.
  - rewrite Hsem. apply links_varrer_app.
  - rewrite Hsem. apply links_das_fontes_buscadas.
  - apply pedidos_varrer.
  - now apply erro_da_fonte.
Qed.

Lemma varrer_links_salta (t : Tarefa) (termo nome_final : string)
    (antes resto : list Ancora) :
  Forall (fun a => casa termo a = false) antes ->
  varrer_links urljoin t termo nome_final (antes ++ resto) =
  varrer_links urljoin t termo nome_final resto.
Proof.
  induction 1 as [|a antes Ha _ IH]; simpl; [reflexivity |].
  now rewrite Ha.
Qed.

Lemma varrer_links_primeiro (t : Tarefa) (termo nome_final u : string)
    (antes depois : list Ancora) (link : Ancora) :
  primeiro_que_casa termo antes link ->
  urljoin (url t) (href link) = Some u ->
  varrer_links urljoin t termo nome_final (antes ++ link :: depois) =
  Achou (link_de t u (termo, nome_final)).
Proof.
  intros [Hantes Hlink] Hu. rewrite varrer_links_salta by exact Hantes.
  simpl. now rewrite Hlink, Hu.
Qed.

(** C4, as amended. Take a source whose page is fetched, one of its
    targets, and the first anchor of the page, in document order, that
    passes the test for the term of the target. When no exception ends the
    scan of the source before or at that target (for the target and for
    each target before it, [urljoin] accepts the reference of the anchor
    selected), the resolver emits exactly one link for the target, built
    from that anchor and its resolved URL, whatever anchors follow it on
    the page, matching or not: the source contributes what the targets
    before should yield, then this link, then what the targets after
    should yield, and the result of the resolver holds these links in that
    order between those of the other sources. *)
Theorem primeira_ancora_vence (web : string -> Resposta) (t : Tarefa)
    (pre pos : list (string * string))
    (termo nome_final u : string) (antes depois : list Ancora) (link : Ancora) :
  falha_de_busca (web (url t)) = false ->
  ancoras_de (web (url t)) = antes ++ link :: depois ->
  alvos t = pre ++ (termo, nome_final) :: pos ->
  Forall (fun alvo => recusa urljoin t (antes ++ link :: depois) alvo = false) pre ->
  primeiro_que_casa termo antes link ->
  urljoin (url t) (href link) = Some u ->
  contribuicao urljoin web t =
    links_esperados urljoin t (antes ++ link :: depois) pre ++
    {| item_url := u; filename := nome_final; origem := nome t |} ::
    links_esperados urljoin t (antes ++ link :: depois) pos /\
  (forall ts1 ts2,
     links_para_baixar (varrer urljoin web (ts1 ++ t :: ts2)) =
     links_para_baixar (varrer urljoin web ts1) ++
     (links_esperados urljoin t (antes ++ link :: depois) pre ++
      {| item_url := u; filename := nome_final; origem := nome t |} ::
      links_esperados urljoin t (antes ++ link :: depois) pos) ++
     links_para_baixar (varrer urljoin web ts2)) /\
  varrer_links urljoin t termo nome_final (antes ++ link :: depois) =
    varrer_links urljoin t termo nome_final (antes ++ [link]).
Proof.
  rewrite falha_de_busca_spec. intros Hw Hpagina Halvos Hpre Hp Hu.
  assert (Hc : contribuicao urljoin web t =
    links_esperados urljoin t (antes ++ link :: depois) pre ++
    {| item_url := u; filename := nome_final; origem := nome t |} ::
    links_esperados urljoin t (antes ++ link :: depois) pos).
  { rewrite contribuicao_esperada by exact Hw.
    rewrite Hpagina, Halvos.
    rewrite links_esperados_app by exact Hpre. f_equal.
    cbn [links_esperados fst]. now rewrite (find_primeiro _ _ _ _ Hp), Hu. }
  split; [exact Hc |]. split.
  - intros ts1 ts2. rewrite links_varrer_app. f_equal.
    change (t :: ts2) with ([t] ++ ts2). rewrite links_varrer_app. f_equal.
    rewrite (links_varrer urljoin web [t]). simpl. now rewrite app_nil_r.
  - now rewrite !(varrer_links_primeiro t termo nome_final u antes _ link Hp Hu).
Qed.

Lemma varrer_alvos_prefixo (t : Tarefa) (links : list Ancora)
    (itens : list (string * string)) :
  exists n,
    fst (varrer_alvos urljoin t links itens []) =
    omap (achado urljoin t links) (take n itens).
Proof.
  induction itens as [|[termo nome_final] resto [n IH]].
  - now exists 0.
  - simpl. destruct (varrer_links urljoin t termo nome_final links) as [|l|e] eqn:Hv.
    + exists (S n). simpl. unfold achado at 1. simpl. now rewrite Hv.
    + exists (S n). rewrite varrer_alvos_acc. simpl.
      unfold achado at 1. simpl. rewrite Hv. now rewrite IH.
    + now exists 0.
Qed.

(** C7. The result is the concatenation of the contributions of the
    sources in the order of the list of sources, so that scanning two lists
    of sources one after the other gives the two results one after the
    other, with nothing removed (scanning the same sources twice gives
    every link twice); and the contribution of one source lists, in the
    order of its targets, the links found for an initial segment of its
    targets. *)
Theorem ordem_do_resultado (web : string -> Resposta) (ts1 ts2 : list Tarefa) :
  links_para_baixar (varrer urljoin web ts1) =
    concat (map (contribuicao urljoin web) ts1) /\
  links_para_baixar (varrer urljoin web (ts1 ++ ts2)) =
    links_para_baixar (varrer urljoin web ts1) ++
    links_para_baixar (varrer urljoin web ts2) /\
  links_para_baixar (varrer urljoin web (ts1 ++ ts1)) =
    links_para_baixar (varrer urljoin web ts1) ++
    links_para_baixar (varrer urljoin web ts1) /\
  forall t, exists n,
    contribuicao urljoin web t =
    omap (achado urljoin t (ancoras_de (web (url t)))) (take n (alvos t)).
Proof.
  split; [apply links_varrer |].
  split; [apply links_varrer_app |].
  split; [apply links_varrer_app |].
  intros t. unfold contribuicao, corpo_try.
  destruct (web (url t)) as [|status_code ancoras]; [now exists 0 |].
  destruct (raise_for_status status_code); [now exists 0 |].
  apply varrer_alvos_prefixo.
Qed.



End ResolverTeoremas.

(** C2 as stated fails for a status that is no success status and no
    error status either: the enforcement page comes with the status 300,
    [raise_for_status] does not raise, the body is parsed, and the source
    yields its two links instead of none; nothing is logged. *)
Lemma status_300_nao_e_falha :
  web_status_300 (url tarefa_fiscalizacao) = Http 300 pagina_fiscalizacao /\
  status_de_sucesso 300 = false /\
  contribuicao urljoin_exemplo web_status_300 tarefa_fiscalizacao =
    [ {| item_url := "https://imac.ac.gov.br/fiscalizacao-autuacoes/pacote.zip";
         filename := "imac_embargos_2025.zip"; origem := "FISCALIZACAO" |};
      {| item_url := "https://imac.ac.gov.br/fiscalizacao-autuacoes/pacote.zip";
         filename := "imac_embargos_2024.zip"; origem := "FISCALIZACAO" |} ] /\
  length (obter_links_download urljoin_exemplo web_status_300) = 4 /\
  erros (varrer urljoin_exemplo web_status_300 tarefas) = [].
Proof. repeat split; vm_compute; reflexivity. Qed.

(** The amended C2 on the configured sources: the licensing page answers
    503 and the enforcement page is served. *)
Lemma falha_de_fonte_isolada_witness :
  contribuicao urljoin_exemplo web_licenciamento_fora tarefa_licenciamento = [] /\
  links_para_baixar
    (varrer urljoin_exemplo web_licenciamento_fora
       ([] ++ tarefa_licenciamento :: [tarefa_fiscalizacao])) =
    links_para_baixar (varrer urljoin_exemplo web_licenciamento_fora []) ++
    links_para_baixar
      (varrer urljoin_exemplo web_licenciamento_fora [tarefa_fiscalizacao]) /\
  links_para_baixar
    (varrer urljoin_exemplo web_licenciamento_fora
       ([] ++ tarefa_licenciamento :: [tarefa_fiscalizacao])) =
    concat (map (fun s => links_esperados urljoin_exemplo s
                            (ancoras_de (web_licenciamento_fora (url s))) (alvos s))
              (List.filter
                 (fun s => negb (falha_de_busca (web_licenciamento_fora (url s))))
                 ([] ++ [tarefa_fiscalizacao]))) /\
  pedidos
    (varrer urljoin_exemplo web_licenciamento_fora
       ([] ++ tarefa_licenciamento :: [tarefa_fiscalizacao])) =
    map url ([] ++ tarefa_licenciamento :: [tarefa_fiscalizacao]) /\
  exists e,
    In (url tarefa_licenciamento, e)
      (erros (varrer urljoin_exemplo web_licenciamento_fora
                ([] ++ tarefa_licenciamento :: [tarefa_fiscalizacao]))).
Proof.
  exact (falha_de_fonte_isolada urljoin_exemplo web_licenciamento_fora
           [] [tarefa_fiscalizacao] tarefa_licenciamento eq_refl).
Defined.

(** The [except] clause also catches what [urljoin] raises: the scan of
    the source ends there, the link appended before stays, and the next
    source is scanned. *)
Example referencia_recusada_encerra_a_fonte :
  varrer urljoin_exemplo
    (fun u => if String.eqb u (url tarefa_licenciamento)
              then Http 200 pagina_com_referencia_ruim
              else Http 200 pagina_fiscalizacao)
    tarefas =
  {| links_para_baixar :=
       [ {| item_url := "https://imac.ac.gov.br/licenciamento/arquivos/supressao_2024.zip";
            filename := "imac_supressao.zip"; origem := "LICENCIAMENTO" |};
         {| item_url := "https://imac.ac.gov.br/fiscalizacao-autuacoes/pacote.zip";
            filename := "imac_embargos_2025.zip"; origem := "FISCALIZACAO" |};
         {| item_url := "https://imac.ac.gov.br/fiscalizacao-autuacoes/pacote.zip";
            filename := "imac_embargos_2024.zip"; origem := "FISCALIZACAO" |} ];
     pedidos := [ url tarefa_licenciamento; url tarefa_fiscalizacao ];
     erros := [ (url tarefa_licenciamento, ValueError) ] |}.
Proof. vm_compute. reflexivity. Qed.

(** What the resolver returns in that situation: the two links of the
    enforcement page and nothing of the licensing page. *)
Example so_a_fiscalizacao :
  obter_links_download urljoin_exemplo web_licenciamento_fora =
  [ {| item_url := "https://imac.ac.gov.br/fiscalizacao-autuacoes/pacote.zip";
       filename := "imac_embargos_2025.zip"; origem := "FISCALIZACAO" |};
    {| item_url := "https://imac.ac.gov.br/fiscalizacao-autuacoes/pacote.zip";
       filename := "imac_embargos_2024.zip"; origem := "FISCALIZACAO" |} ].
Proof. vm_compute. reflexivity. Qed.

(** C4 as stated fails when an exception ends the scan of the source
    before the term: on the page below two anchors pass the test for
    [USO-ALTERNATIVO], but [urljoin] raises on the anchor selected for
    [SUPRESSAO], the term before it, and the source is left: the resolver
    emits no link at all for [USO-ALTERNATIVO]. *)
Lemma excecao_anterior_tira_o_link :
  busca_falhou (web_recusa_no_primeiro (url tarefa_licenciamento)) = false /\
  ancoras_de (web_recusa_no_primeiro (url tarefa_licenciamento)) =
    pagina_recusa_no_primeiro /\
  List.filter (casa "USO-ALTERNATIVO") pagina_recusa_no_primeiro =
    [ {| href := "arquivos/uso-alternativo.zip"; get_text := "Uso alternativo" |};
      {| href := "arquivos/USO-ALTERNATIVO_antigo.rar"; get_text := "antigo" |} ] /\
  contribuicao urljoin_exemplo web_recusa_no_primeiro tarefa_licenciamento = [] /\
  map filename (obter_links_download urljoin_exemplo web_recusa_no_primeiro) =
    [ "imac_embargos_2025.zip"; "imac_embargos_2024.zip" ] /\
  erros (varrer urljoin_exemplo web_recusa_no_primeiro tarefas) =
    [ (url tarefa_licenciamento, ValueError) ].
Proof. repeat split; vm_compute; reflexivity. Qed.

(** The amended C4 on the licensing page, for the first target of the
    source: the second anchor is the first that passes the test for
    [SUPRESSAO], the [.rar] anchor after it passes too and is ignored; the
    source yields this link and then the link of its second target, and
    the resolver four links in all. *)
Lemma primeira_ancora_vence_witness :
  casa "SUPRESSAO"
    {| href := "arquivos/SUPRESSAO_antigo.rar"; get_text := "antigo" |} = true /\
  contribuicao urljoin_exemplo web_no_ar tarefa_licenciamento =
    [ {| item_url := "https://imac.ac.gov.br/licenciamento/arquivos/supressao_2024.zip";
         filename := "imac_supressao.zip"; origem := "LICENCIAMENTO" |};
      {| item_url := "https://cdn.exemplo.br/uso.ZIP";
         filename := "imac_uso_alternativo.zip"; origem := "LICENCIAMENTO" |} ] /\
  length (obter_links_download urljoin_exemplo web_no_ar) = 4.
Proof.
  split; [reflexivity |].
  assert (Hp : primeiro_que_casa "SUPRESSAO"
                 [ {| href := "sobre.html"; get_text := "Sobre o licenciamento" |} ]
                 {| href := "arquivos/supressao_2024.zip"; get_text := " Supressao " |})
    by (split; [repeat constructor | reflexivity]).
  destruct (primeira_ancora_vence urljoin_exemplo web_no_ar tarefa_licenciamento
           [] [("USO-ALTERNATIVO", "imac_uso_alternativo.zip")]
           "SUPRESSAO" "imac_supressao.zip"
           "https://imac.ac.gov.br/licenciamento/arquivos/supressao_2024.zip"
           [ {| href := "sobre.html"; get_text := "Sobre o licenciamento" |} ]
           [ {| href := "arquivos/SUPRESSAO_antigo.rar"; get_text := "antigo" |};
             {| href := "arquivos/uso-alternativo.pdf"; get_text := "USO-ALTERNATIVO" |};
             {| href := "https://cdn.exemplo.br/uso.ZIP";
                get_text := " uso-alternativo (zip) " |} ]
           {| href := "arquivos/supressao_2024.zip"; get_text := " Supressao " |}
           eq_refl eq_refl eq_refl (List.Forall_nil _) Hp eq_refl)
    as (Hc & Hr & _).
  split.
  - rewrite Hc. reflexivity.
  - unfold obter_links_download.
    change tarefas with ([] ++ tarefa_licenciamento :: [tarefa_fiscalizacao]).
    rewrite Hr. reflexivity.
Defined.


(** The same URL twice in the result, under two file names. *)
Example mesma_url_duas_vezes :
  map item_url (obter_links_download urljoin_exemplo web_no_ar) =
  [ "https://imac.ac.gov.br/licenciamento/arquivos/supressao_2024.zip";
    "https://cdn.exemplo.br/uso.ZIP";
    "https://imac.ac.gov.br/fiscalizacao-autuacoes/pacote.zip";
    "https://imac.ac.gov.br/fiscalizacao-autuacoes/pacote.zip" ].
Proof. vm_compute. reflexivity. Qed.

(** ** The discovery cache *)

Lemma pedidos_sem_repeticao (urljoin : string -> string -> option string)
    (web : string -> Resposta) (u : string) :
  count_occ string_dec (pedidos (varrer urljoin web tarefas)) u <= 1.
Proof.
  rewrite pedidos_varrer. revert u. apply NoDup_count_occ.
  repeat constructor; simpl; intuition discriminate.
Qed.

Lemma getLinks_valida (urljoin : string -> string -> option string)
    (web : Z -> string -> Resposta) (now : Z) (cache : option DiscoveryCacheEntry) :
  valida now cache = true ->
  exists e, cache = Some e /\
    getLinks urljoin web now cache =
    {| retorno := result e; rede_usada := []; cache_depois := cache |}.
Proof.
  destruct cache as [e|]; [| discriminate]. simpl. intros Hv.
  apply negb_true_iff in Hv. exists e. now rewrite Hv.
Qed.

Lemma getLinks_invalida (urljoin : string -> string -> option string)
    (web : Z -> string -> Resposta) (now : Z) (cache : option DiscoveryCacheEntry) :
  valida now cache = false ->
  getLinks urljoin web now cache =
  let v := varrer urljoin (web now) tarefas in
  {| retorno := links_para_baixar v;
     rede_usada := pedidos v;
     cache_depois := Some {| result := links_para_baixar v;
                             computedAt := now; ttlSeconds := ttl |} |}.
Proof.
  destruct cache as [e|]; [| reflexivity]. simpl. intros Hv.
  apply negb_false_iff in Hv. now rewrite Hv.
Qed.

(** C5, as amended. Take two calls of the cached discovery, the second at
    most [ttl] (3600) seconds after the first. Over the two calls no page
    is requested more than once. When the entry that the first call leaves
    is still valid at the second call, as it always is when the first call
    computes it, the second call issues no request and returns what the
    first returned, even if the web changed in between. A call that finds
    a valid entry returns its result, issues no request and leaves the
    cache as it was. *)
Theorem cache_dentro_do_ttl (urljoin : string -> string -> option string)
    (web : Z -> string -> Resposta) (cache : option DiscoveryCacheEntry)
    (t1 t2 : Z) :
  (t2 - t1 <= ttl)%Z ->
  let c1 := getLinks urljoin web t1 cache in
  let c2 := getLinks urljoin web t2 (cache_depois c1) in
  (forall u, count_occ string_dec (rede_usada c1 ++ rede_usada c2) u <= 1) /\
  (valida t1 cache = false ->
     retorno c2 = retorno c1 /\ rede_usada c2 = []) /\
  (valida t2 (cache_depois c1) = true ->
     retorno c2 = retorno c1 /\ rede_usada c2 = []) /\
  (valida t1 cache = true ->
     rede_usada c1 = [] /\ cache_depois c1 = cache /\
     exists e, cache = Some e /\ retorno c1 = result e).
Proof.
  intros Hjanela c1 c2.
  assert (Hhit : valida t2 (cache_depois c1) = true ->
                 retorno c2 = retorno c1 /\ rede_usada c2 = []).
  { intros Hv. subst c2.
    destruct (getLinks_valida urljoin web t2 _ Hv) as (e & He & ->). simpl.
    split; [| reflexivity]. subst c1.
    destruct (valida t1 cache) eqn:Hv1.
    - destruct (getLinks_valida urljoin web t1 _ Hv1) as (e1 & -> & Hg).
      rewrite Hg in *. simpl in *. congruence.
    - rewrite (getLinks_invalida urljoin web t1 _ Hv1) in *. simpl in *.
      injection He as <-. reflexivity. }
  assert (Hmiss : valida t1 cache = false -> valida t2 (cache_depois c1) = true).
  { intros Hv1. subst c1. rewrite (getLinks_invalida urljoin web t1 _ Hv1).
    simpl. unfold expirada. simpl. apply negb_true_iff, Z.ltb_ge. exact Hjanela. }
  split; [| split; [| split]].
  - intros u. destruct (valida t1 cache) eqn:Hv1.
    + destruct (getLinks_valida urljoin web t1 _ Hv1) as (e1 & Hc & Hg).
      subst c2 c1. rewrite Hg. simpl.
      destruct (valida t2 cache) eqn:Hv2.
      * destruct (getLinks_valida urljoin web t2 _ Hv2) as (e2 & _ & ->).
        simpl. lia.
      * rewrite (getLinks_invalida urljoin web t2 _ Hv2). simpl.
        apply pedidos_sem_repeticao.
    + destruct (Hhit (Hmiss eq_refl)) as [_ ->]. rewrite app_nil_r.
      subst c1. rewrite (getLinks_invalida urljoin web t1 _ Hv1). simpl.
      apply pedidos_sem_repeticao.
  - intros Hv1. apply Hhit, Hmiss, Hv1.
  - exact Hhit.
  - intros Hv1. destruct (getLinks_valida urljoin web t1 _ Hv1) as (e1 & Hc & Hg).
    subst c1. rewrite Hg. simpl. split; [reflexivity |]. split; [reflexivity |].
    now exists e1.
Qed.

(** C5 as stated fails when the entry that serves the first call expires
    before the second: the entry is computed at second 0, the call at
    second 3000 is served from it, and the call at second 4000, a thousand
    seconds later, finds it expired, requests both pages again and, the
    licensing page being out by then, returns two links instead of
    four. *)
Lemma entrada_expira_entre_as_chamadas :
  let c0 := getLinks urljoin_exemplo web_no_tempo 0 None in
  let c1 := getLinks urljoin_exemplo web_no_tempo 3000 (cache_depois c0) in
  let c2 := getLinks urljoin_exemplo web_no_tempo 4000 (cache_depois c1) in
  (4000 - 3000 <=? ttl)%Z = true /\
  valida 3000 (cache_depois c0) = true /\
  valida 4000 (cache_depois c1) = false /\
  rede_usada c1 = [] /\ length (retorno c1) = 4 /\
  rede_usada c2 = map url tarefas /\ length (retorno c2) = 2.
Proof. repeat split; vm_compute; reflexivity. Qed.

(** The amended C5 from an empty cache: a first call at second 0 and a
    second call at second 1800, after the licensing page went out. *)
Lemma cache_dentro_do_ttl_witness :
  let c1 := getLinks urljoin_exemplo web_no_tempo 0 None in
  let c2 := getLinks urljoin_exemplo web_no_tempo 1800 (cache_depois c1) in
  (forall u, count_occ string_dec (rede_usada c1 ++ rede_usada c2) u <= 1) /\
  retorno c2 = retorno c1 /\ rede_usada c2 = [] /\ length (retorno c1) = 4.
Proof.
  pose proof (cache_dentro_do_ttl urljoin_exemplo web_no_tempo None 0 1800) as H.
  assert (Hj : (1800 - 0 <= ttl)%Z) by (unfold ttl; lia).
  destruct (H Hj) as (Hu & Hmiss & _ & _).
  destruct (Hmiss eq_refl) as [Hr Hn].
  intros c1 c2. split; [exact Hu |]. split; [exact Hr |]. split; [exact Hn |].
  vm_compute. reflexivity.
Defined.

(** ** The fetch-and-bundle pipeline *)

Lemma Zpos_of_nat (n : nat) : n <> 0 -> Z.pos (Pos.of_nat n) = Z.of_nat n.
Proof. intros Hn. rewrite <- positive_nat_Z. now rewrite Nat2Pos.id. Qed.

(** Inside the loop the divisor is the length of a list that has an item,
    and the quotient is a fraction of the bar. *)
Lemma progresso_aceito (total idx : nat) (b : list Q) :
  idx < total ->
  dividir (idx + 1) total = inr (Z.of_nat (idx + 1) # Pos.of_nat total) /\
  progress b (Z.of_nat (idx + 1) # Pos.of_nat total) =
    inr (b ++ [Z.of_nat (idx + 1) # Pos.of_nat total]).
Proof.
  intros Hlt. unfold dividir, progress.
  destruct (Nat.eqb_spec total 0) as [->|Hne]; [lia |]. split; [reflexivity |].
  assert (H0 : Qle_bool 0 (Z.of_nat (idx + 1) # Pos.of_nat total) = true).
  { apply Qle_bool_iff. unfold Qle. simpl. lia. }
  assert (H1 : Qle_bool (Z.of_nat (idx + 1) # Pos.of_nat total) 1 = true).
  { apply Qle_bool_iff. unfold Qle. simpl. rewrite Zpos_of_nat by exact Hne. lia. }
  now rewrite H0, H1.
Qed.

Lemma marca_sucesso (item : Link) :
  e_sucesso (linha_sucesso item) = true /\ e_falha (linha_sucesso item) = false.
Proof. split; reflexivity. Qed.

Lemma marca_falha (item : Link) :
  e_sucesso (linha_falha item) = false /\ e_falha (linha_falha item) = true.
Proof. split; reflexivity. Qed.

(** *** The destination of a download *)

Lemma partir_aux_sem_barra (s acc : string) :
  sem_barra s = true -> partir_aux s acc = [acc +:+ s].
Proof.
  revert acc. induction s as [|c r IH]; intros acc; simpl.
  - intros _. now rewrite app_vazio_r.
  - rewrite andb_true_iff, negb_true_iff. intros [-> Hr].
    rewrite (IH _ Hr). now rewrite app_assoc_s.
Qed.

(** A plain file name denotes the file of that name in [download_dir]. *)
Lemma destino_simples (fname : string) :
  nome_simples fname = true -> destino fname = Membro fname.
Proof.
  unfold nome_simples. rewrite !andb_true_iff, !negb_true_iff.
  intros [[[Hb Hv] Hp] Hpp]. unfold destino, partes, partir.
  rewrite (partir_aux_sem_barra fname "" Hb). cbn [String.append List.filter].
  rewrite Hv, Hp. cbn [negb andb andar]. rewrite Hpp.
  destruct fname as [|c r]; [discriminate |]. cbn [startswith].
  simpl in Hb. apply andb_true_iff in Hb. destruct Hb as [Hc _].
  apply negb_true_iff in Hc. rewrite Ascii.eqb_sym in Hc. now rewrite Hc.
Qed.

(** The destinations of some file names: other spellings of a plain name,
    names that leave [download_dir], names on which [open] raises, and
    names that are not followed. *)
Example destinos_de_nomes :
  map destino
    [ "a.zip"; "./a.zip"; "a.zip/"; "..."; "../dados_imac/b.zip";
      "../fora.zip";
      ""; "."; ".."; "../.."; "sub/c.zip"; "a.zip/.."; "../dados_imac"; "../x/y";
      "/etc/x"; "../../x" ] =
    [ Membro "a.zip"; Membro "a.zip"; Membro "a.zip"; Membro "..."; Membro "b.zip";
      Vizinho "fora.zip";
      NaoAbre; NaoAbre; NaoAbre; NaoAbre; NaoAbre; NaoAbre; NaoAbre; NaoAbre;
      Desconhecido; Desconhecido ].
Proof. reflexivity. Qed.

Lemma pode_abrir_simples (fname : string) :
  nome_simples fname = true -> pode_abrir fname = true.
Proof. intros H. unfold pode_abrir. now rewrite (destino_simples fname H). Qed.

Lemma alcanca_simples (f fname : string) :
  nome_simples fname = true -> alcanca f fname = String.eqb fname f.
Proof. intros H. unfold alcanca. now rewrite (destino_simples fname H). Qed.

Lemma gravar_membro (fname n : string) (b : list Byte.byte)
    (d : gmap string (list Byte.byte)) :
  destino fname = Membro n -> gravar fname b d = <[n := b]> d.
Proof. intros H. unfold gravar. now rewrite H. Qed.

Lemma gravar_outro (f fname : string) (b : list Byte.byte)
    (d : gmap string (list Byte.byte)) :
  alcanca f fname = false -> gravar fname b d !! f = d !! f.
Proof.
  unfold alcanca, gravar. destruct (destino fname) as [n|n| |]; try reflexivity.
  intros Hn. apply String.eqb_neq in Hn. now rewrite lookup_insert_ne.
Qed.

(** A file of [download_dir] after a write was there before, or is the
    one written. *)
Lemma gravar_origem (f fname : string) (b c : list Byte.byte)
    (d : gmap string (list Byte.byte)) :
  gravar fname b d !! f = Some c ->
  d !! f = Some c \/ (destino fname = Membro f /\ b = c).
Proof.
  unfold gravar. destruct (destino fname) as [n|n| |]; try (now left).
  destruct (decide (n = f)) as [->|Hne].
  - rewrite lookup_insert_eq. intros H. injection H as ->. now right.
  - rewrite lookup_insert_ne by exact Hne. now left.
Qed.

Lemma dom_gravar (f fname : string) (b : list Byte.byte)
    (d : gmap string (list Byte.byte)) :
  f ∈ dom (gravar fname b d) <-> f ∈ dom d \/ destino fname = Membro f.
Proof.
  unfold gravar. destruct (destino fname) as [n|n| |].
  - rewrite dom_insert_L, elem_of_union, elem_of_singleton. split.
    + intros [-> | H]; [now right | now left].
    + intros [H | H]; [now right | injection H as ->; now left].
  - split; [now left | intros [H | H]; [exact H | discriminate]].
  - split; [now left | intros [H | H]; [exact H | discriminate]].
  - split; [now left | intros [H | H]; [exact H | discriminate]].
Qed.

Lemma size_gravar (fname : string) (b : list Byte.byte)
    (d : gmap string (list Byte.byte)) :
  size (gravar fname b d) <= S (size d).
Proof.
  unfold gravar. destruct (destino fname) as [n|n| |]; try lia.
  rewrite map_size_insert. destruct (d !! n); simpl; lia.
Qed.

Section PipelineFatos.

Variable rede : nat -> string -> Download.
Variable abre : string -> bool.

(** The loop never raises when [total] is the length of the whole list,
    and its final state is given by [escritas], [linhas], [sucedidos] and
    [fracoes]. *)
Lemma laco_ok (total : nat) (itens : list Link) (idx : nat) (e : Estado) :
  idx + length itens = total ->
  laco rede abre total idx itens e =
  inr {| download_dir := escritas rede abre idx itens (download_dir e);
         log_execucao := log_execucao e ++ linhas rede abre idx itens;
         sucesso_count := sucesso_count e + length (sucedidos rede abre idx itens);
         progresso := progresso e ++ fracoes total idx (length itens) |}.
Proof.
  revert idx e. induction itens as [|item resto IH]; intros idx e Hlen.
  - simpl. unfold fracoes. simpl. rewrite !app_nil_r, Nat.add_0_r. now destruct e.
  - simpl in Hlen. cbn [laco].
    destruct (progresso_aceito total idx
                (progresso (baixar (efeito rede abre idx item) item e)))
      as [Hd Hp]; [lia |].
    rewrite Hd, Hp. rewrite IH by lia. cbn [download_dir log_execucao
      sucesso_count progresso]. unfold fracoes. cbn [length seq map escritas linhas sucedidos].
    unfold linha. destruct (efeito rede abre idx item) as [|parcial|dados];
      cbn [baixar download_dir log_execucao sucesso_count progresso length];
      rewrite <- !app_assoc; cbn [app]; do 2 f_equal; lia.
Qed.

Lemma escritas_app (idx : nat) (l1 l2 : list Link) (d : gmap string (list Byte.byte)) :
  escritas rede abre idx (l1 ++ l2) d =
  escritas rede abre (idx + length l1) l2 (escritas rede abre idx l1 d).
Proof.
  revert idx d. induction l1 as [|item l1 IH]; intros idx d; simpl.
  - now rewrite Nat.add_0_r.
  - rewrite IH. f_equal. lia.
Qed.

(** Items whose path is another file leave the file alone. *)
Lemma escritas_outros (f : string) (idx : nat) (itens : list Link)
    (d : gmap string (list Byte.byte)) :
  Forall (fun item => alcanca f (filename item) = false) itens ->
  escritas rede abre idx itens d !! f = d !! f.
Proof.
  intros Hall. revert idx d.
  induction Hall as [|item resto Hne _ IH]; intros idx d; simpl; [reflexivity |].
  rewrite IH. destruct (efeito rede abre idx item); [reflexivity | |];
    now apply gravar_outro.
Qed.

(** So do items whose download does not get to open its destination. *)
Lemma escritas_intocado (f : string) (itens : list Link) (idx : nat)
    (d : gmap string (list Byte.byte)) :
  (forall k item, itens !! k = Some item ->
     alcanca f (filename item) = false \/
     efeito rede abre (idx + k) item = NadaEscrito) ->
  escritas rede abre idx itens d !! f = d !! f.
Proof.
  revert idx d. induction itens as [|item resto IH]; intros idx d H; simpl;
    [reflexivity |].
  rewrite IH.
  - destruct (H 0 item eq_refl) as [Hn | He].
    + destruct (efeito rede abre idx item); [reflexivity | |];
        now apply gravar_outro.
    + rewrite Nat.add_0_r in He. now rewrite He.
  - intros k x Hk. replace (S idx + k) with (idx + S k) by lia. now apply H.
Qed.

Lemma dom_escritas (idx : nat) (itens : list Link) (d : gmap string (list Byte.byte)) :
  Forall (fun item => nome_simples (filename item) = true) itens ->
  dom (escritas rede abre idx itens d) =
  dom d ∪ list_to_set (map filename (sucedidos rede abre idx itens)) ∪
          list_to_set (map filename (interrompidos rede abre idx itens)).
Proof.
  intros Hall. revert idx d.
  induction Hall as [|item resto Hn _ IH]; intros idx d; simpl.
  - set_solver.
  - rewrite IH. destruct (efeito rede abre idx item); simpl;
      rewrite ?(gravar_membro _ _ _ _ (destino_simples _ Hn)), ?dom_insert_L;
      set_solver.
Qed.

(** Every file of the directory was there before or was written by the
    download of a link whose path is that file. *)
Lemma escritas_origem (f : string) (c : list Byte.byte) (itens : list Link)
    (idx : nat) (d : gmap string (list Byte.byte)) :
  escritas rede abre idx itens d !! f = Some c ->
  d !! f = Some c \/
  exists k item, itens !! k = Some item /\ destino (filename item) = Membro f /\
    (efeito rede abre (idx + k) item = EscritoInteiro c \/
     efeito rede abre (idx + k) item = EscritoParcial c).
Proof.
  revert idx d. induction itens as [|item resto IH]; intros idx d; simpl.
  - now left.
  - intros H. destruct (IH _ _ H) as [Hd | (k & x & Hk & Hf & He)].
    + destruct (efeito rede abre idx item) as [|parcial|dados] eqn:Hef.
      * now left.
      * destruct (gravar_origem _ _ _ _ _ Hd) as [H0 | [Hm ->]]; [now left |].
        right. exists 0, item. rewrite Nat.add_0_r. auto.
      * destruct (gravar_origem _ _ _ _ _ Hd) as [H0 | [Hm ->]]; [now left |].
        right. exists 0, item. rewrite Nat.add_0_r. auto.
    + right. exists (S k), x. replace (idx + S k) with (S idx + k) by lia. auto.
Qed.

Lemma sem_interrompidos (itens : list Link) (idx k : nat) (item : Link)
    (c : list Byte.byte) :
  interrompidos rede abre idx itens = [] ->
  itens !! k = Some item ->
  efeito rede abre (idx + k) item = EscritoParcial c -> False.
Proof.
  revert idx k. induction itens as [|x resto IH]; intros idx k Hnil Hk He.
  - discriminate.
  - simpl in Hnil. destruct k as [|k]; simpl in Hk.
    + injection Hk as ->. rewrite Nat.add_0_r in He. now rewrite He in Hnil.
    + apply (IH (S idx) k); [| exact Hk | now replace (S idx + k) with (idx + S k) by lia].
      destruct (efeito rede abre idx x); [exact Hnil | discriminate | exact Hnil].
Qed.

Lemma conta_sucessos (idx : nat) (itens : list Link) :
  length (List.filter e_sucesso (linhas rede abre idx itens)) =
  length (sucedidos rede abre idx itens).
Proof.
  revert idx. induction itens as [|item resto IH]; intros idx; simpl; [reflexivity |].
  unfold linha. destruct (efeito rede abre idx item); simpl; now rewrite IH.
Qed.

Lemma conta_falhas (idx : nat) (itens : list Link) :
  length (List.filter e_falha (linhas rede abre idx itens)) =
  length (falhados rede abre idx itens).
Proof.
  revert idx. induction itens as [|item resto IH]; intros idx; simpl; [reflexivity |].
  unfold linha. destruct (efeito rede abre idx item); simpl; now rewrite IH.
Qed.

Lemma length_linhas (idx : nat) (itens : list Link) :
  length (linhas rede abre idx itens) = length itens.
Proof.
  revert idx. induction itens as [|item resto IH]; intros idx; simpl; [reflexivity |].
  now rewrite IH.
Qed.

Lemma sucedidos_mais_falhados (idx : nat) (itens : list Link) :
  length (sucedidos rede abre idx itens) + length (falhados rede abre idx itens) =
  length itens.
Proof.
  revert idx. induction itens as [|item resto IH]; intros idx; simpl; [reflexivity |].
  destruct (efeito rede abre idx item); simpl; rewrite <- (IH (S idx)); lia.
Qed.

(** The pipeline always returns, and what it returns is read off the list
    of links. *)
Lemma processar_downloads_ok (temp_dir : string) (agora : DataHora)
    (lista_links : list Link) :
  processar_downloads temp_dir agora rede abre lista_links =
  inr {| caminho_zip :=
           temp_dir +:+ "/" +:+ ("Geodata_IMAC_" +:+ strftime_Ymd_HM agora) +:+ ".zip";
         logs := linhas rede abre 0 lista_links;
         temp_folder := temp_dir;
         membros_zip := escritas rede abre 0 lista_links ∅;
         barra := 0%Q :: fracoes (length lista_links) 0 (length lista_links) |}.
Proof.
  unfold processar_downloads. rewrite (laco_ok (length lista_links)) by reflexivity.
  reflexivity.
Qed.

End PipelineFatos.

(** *** Text of the archive name *)

Lemma digito_e_digito (k : nat) : e_digito (digito k) = true.
Proof.
  unfold digito. assert (H : k mod 10 < 10) by (apply Nat.mod_upper_bound; lia).
  destruct (k mod 10) as [|d]; [reflexivity |].
  do 9 (destruct d as [|d]; [reflexivity |]). lia.
Qed.

Lemma valor_do_digito (k : nat) : nat_of_ascii (digito k) - 48 = k mod 10.
Proof.
  unfold digito. assert (H : k mod 10 < 10) by (apply Nat.mod_upper_bound; lia).
  destruct (k mod 10) as [|d]; [reflexivity |].
  do 9 (destruct d as [|d]; [reflexivity |]). lia.
Qed.

Lemma valor_aux_acc (s : string) (acc : nat) :
  valor_aux s acc = acc * 10 ^ String.length s + valor_aux s 0.
Proof.
  revert acc. induction s as [|c r IH]; intros acc; simpl.
  - lia.
  - rewrite (IH (10 * acc + _)), (IH (nat_of_ascii c - 48)). nia.
Qed.

Lemma so_digitos_decimal_aux (fuel n : nat) (acc : string) :
  so_digitos acc = true -> so_digitos (decimal_aux fuel n acc) = true.
Proof.
  revert n acc. induction fuel as [|f IH]; intros n acc Hacc; cbn [decimal_aux];
    [exact Hacc |].
  assert (H1 : so_digitos (String (digito n) acc) = true)
    by (cbn [so_digitos]; now rewrite digito_e_digito, Hacc).
  destruct (n / 10 =? 0)%nat; [exact H1 | now apply IH].
Qed.

Lemma valor_decimal_aux (fuel n : nat) (acc : string) :
  n < fuel ->
  valor (decimal_aux fuel n acc) = n * 10 ^ String.length acc + valor acc.
Proof.
  unfold valor. revert n acc. induction fuel as [|f IH]; intros n acc Hn; [lia |].
  cbn [decimal_aux]. pose proof (Nat.div_mod_eq n 10) as Hdm.
  destruct (Nat.eqb_spec (n / 10) 0) as [H0|H0].
  - cbn [valor_aux]. rewrite valor_aux_acc, valor_do_digito. lia.
  - rewrite IH by lia. cbn [valor_aux String.length].
    rewrite (valor_aux_acc acc), valor_do_digito, Nat.pow_succ_r'. nia.
Qed.

Lemma length_decimal_aux (fuel n k : nat) (acc : string) :
  n < 10 ^ k -> 1 <= k ->
  String.length (decimal_aux fuel n acc) <= k + String.length acc.
Proof.
  revert n k acc. induction fuel as [|f IH]; intros n k acc Hn Hk;
    cbn [decimal_aux]; [lia |].
  pose proof (Nat.div_mod_eq n 10) as Hdm.
  destruct (Nat.eqb_spec (n / 10) 0) as [H0|H0]; cbn [String.length]; [lia |].
  destruct k as [|k]; [lia |]. rewrite Nat.pow_succ_r' in Hn.
  destruct k as [|k]; [rewrite Nat.pow_0_r in Hn; lia |].
  assert (Hq : n / 10 < 10 ^ S k) by lia.
  specialize (IH (n / 10) (S k) (String (digito n) acc) Hq).
  cbn [String.length] in IH. lia.
Qed.

Lemma so_digitos_app (a b : string) :
  so_digitos (a +:+ b) = so_digitos a && so_digitos b.
Proof.
  induction a as [|c r IH]; cbn [String.append so_digitos]; [reflexivity |].
  now rewrite IH, andb_assoc.
Qed.

Lemma zeros_campo (k : nat) :
  String.length (zeros k) = k /\ so_digitos (zeros k) = true /\
  forall s, valor (zeros k +:+ s) = valor s.
Proof.
  induction k as [|k (Hl & Hd & Hv)]; [now repeat split |].
  cbn [zeros String.length so_digitos]. rewrite Hl, Hd. repeat split.
  intros s. unfold valor in *. cbn [String.append valor_aux]. exact (Hv s).
Qed.

(** The decimal writing of [n], padded to [w] digits, is a field of [w]
    digits that writes [n], when [n] has at most [w] digits. *)
Lemma zfill_decimal_campo (w n : nat) :
  1 <= w -> n < 10 ^ w -> campo w n (zfill w (decimal n)).
Proof.
  intros Hw Hn. unfold campo, zfill, decimal.
  pose proof (length_decimal_aux (S n) n w "" Hn Hw) as Hlen.
  cbn [String.length] in Hlen.
  destruct (zeros_campo (w - String.length (decimal_aux (S n) n ""))) as (Hl & Hd & Hv).
  repeat split.
  - rewrite length_app_s, Hl. lia.
  - rewrite so_digitos_app, Hd. now apply so_digitos_decimal_aux.
  - rewrite Hv, valor_decimal_aux by lia. cbn. lia.
Qed.

Lemma quatro_digitos (n : nat) :
  n < 100 * 100 -> campo 4 n (zfill 4 (decimal n)).
Proof.
  intros Hn. apply zfill_decimal_campo; [lia |].
  change (10 ^ 4) with (100 * 100). exact Hn.
Qed.

Lemma dois_digitos (n : nat) :
  n < 100 -> campo 2 n (zfill 2 (decimal n)).
Proof.
  intros Hn. apply zfill_decimal_campo; [lia |].
  change (10 ^ 2) with 100. exact Hn.
Qed.

Lemma sem_barra_app (a b : string) :
  sem_barra (a +:+ b) = sem_barra a && sem_barra b.
Proof.
  induction a as [|c r IH]; simpl; [reflexivity |].
  now rewrite IH, andb_assoc.
Qed.

Lemma digitos_sem_barra (s : string) : so_digitos s = true -> sem_barra s = true.
Proof.
  induction s as [|c r IH]; simpl; [reflexivity |].
  rewrite andb_true_iff. intros [Hc Hr]. rewrite (IH Hr), andb_true_r.
  destruct (Ascii.eqb_spec c "/") as [->|_]; [discriminate | reflexivity].
Qed.

Lemma basename_aux_sem_barra (s acc : string) :
  sem_barra s = true -> basename_aux s acc = acc +:+ s.
Proof.
  revert acc. induction s as [|c r IH]; intros acc; simpl.
  - intros _. now rewrite app_vazio_r.
  - rewrite andb_true_iff, negb_true_iff. intros [-> Hr].
    rewrite (IH _ Hr). now rewrite app_assoc_s.
Qed.

Lemma basename_aux_barra (dir resto acc : string) :
  basename_aux (dir +:+ "/" +:+ resto) acc = basename_aux resto "".
Proof.
  revert acc. induction dir as [|c r IH]; intros acc; simpl; [reflexivity |].
  destruct (Ascii.eqb c "/"); apply IH.
Qed.

(** The base name of [dir/name] is [name] when [name] has no ['/']. *)
Lemma basename_junta (dir name : string) :
  sem_barra name = true -> basename (dir +:+ "/" +:+ name) = name.
Proof.
  intros Hn. unfold basename. rewrite basename_aux_barra.
  now rewrite basename_aux_sem_barra.
Qed.

Section PipelineTeoremas.

Variable rede : nat -> string -> Download.
Variable abre : string -> bool.

Lemma linhas_lookup (itens : list Link) (idx k : nat) (item : Link) :
  itens !! k = Some item ->
  linhas rede abre idx itens !! k = Some (linha rede abre (idx + k) item).
Proof.
  revert idx k. induction itens as [|x resto IH]; intros idx k Hk; [discriminate |].
  destruct k as [|k]; simpl in *.
  - injection Hk as ->. now rewrite Nat.add_0_r.
  - rewrite (IH (S idx) k Hk). do 2 f_equal. lia.
Qed.

(** C1, as amended. The pipeline returns for every list of links, whatever
    downloads fail: its log has one line per link, in order, a success
    line for each finished download and a failure line for each failed
    one. Provided every download that fails does so before its destination
    file is opened (the request raises, the status is an error status, or
    the file cannot be opened), and every file name is a plain file name,
    so that [download_dir / fname] is the file of that name in
    [download_dir], the archive holds exactly the files of the finished
    downloads, each with the whole body of a finished download of that
    file name. *)
Theorem falhas_isoladas (temp_dir : string) (agora : DataHora)
    (lista_links : list Link) :
  exists s,
    processar_downloads temp_dir agora rede abre lista_links = inr s /\
    logs s = linhas rede abre 0 lista_links /\
    length (logs s) = length lista_links /\
    length (List.filter e_sucesso (logs s)) =
      length (sucedidos rede abre 0 lista_links) /\
    length (List.filter e_falha (logs s)) =
      length (falhados rede abre 0 lista_links) /\
    length (sucedidos rede abre 0 lista_links) +
      length (falhados rede abre 0 lista_links) = length lista_links /\
    (interrompidos rede abre 0 lista_links = [] ->
     Forall (fun item => nome_simples (filename item) = true) lista_links ->
     dom (membros_zip s) =
       list_to_set (map filename (sucedidos rede abre 0 lista_links)) /\
     forall f c, membros_zip s !! f = Some c ->
       exists k item, lista_links !! k = Some item /\ filename item = f /\
         efeito rede abre k item = EscritoInteiro c).
Proof.
  eexists. split; [apply processar_downloads_ok |]. simpl.
  split; [reflexivity |].
  split; [apply length_linhas |].
  split; [apply conta_sucessos |].
  split; [apply conta_falhas |].
  split; [apply sucedidos_mais_falhados |].
  intros Hsem Hnomes. split.
  - rewrite dom_escritas by exact Hnomes. rewrite Hsem. set_solver.
  - intros f c Hfc.
    destruct (escritas_origem rede abre f c _ _ _ Hfc) as [H0 | (k & item & Hk & Hf & [He | He])].
    + now rewrite lookup_empty in H0.
    + exists k, item. split; [exact Hk |]. split; [| exact He].
      pose proof (Forall_lookup_1 _ _ _ _ Hnomes Hk) as Hn. simpl in Hn.
      rewrite (destino_simples _ Hn) in Hf. now injection Hf.
    + destruct (sem_interrompidos rede abre _ _ _ _ _ Hsem Hk He).
Qed.

(** C6. On the empty list the loop body never runs, so no quotient is
    computed: the pipeline returns an empty log, an archive without
    members at the timestamped path, and a bar that stayed at 0. On any
    list it returns a result: the divisor of the progress is the length of
    a list that has at least the current item. *)
Theorem lista_vazia (temp_dir : string) (agora : DataHora) :
  processar_downloads temp_dir agora rede abre [] =
    inr {| caminho_zip :=
             temp_dir +:+ "/" +:+ ("Geodata_IMAC_" +:+ strftime_Ymd_HM agora) +:+ ".zip";
           logs := [];
           temp_folder := temp_dir;
           membros_zip := ∅;
           barra := [0%Q] |} /\
  forall lista_links, exists s,
    processar_downloads temp_dir agora rede abre lista_links = inr s /\
    length (logs s) = length lista_links.
Proof.
  split; [reflexivity |].
  intros lista_links. eexists. split; [apply processar_downloads_ok |].
  simpl. apply length_linhas.
Qed.

(** C8. For a valid [datetime], the base name of the archive path is
    [Geodata_IMAC_] followed by the year on four digits, the month and the
    day on two digits each, an underscore, the hour and the minute on two
    digits each, and [.zip]; the seconds do not appear. *)
Theorem nome_do_pacote (temp_dir : string) (agora : DataHora)
    (lista_links : list Link) :
  data_valida agora ->
  exists s yyyy mm dd hh mi,
    processar_downloads temp_dir agora rede abre lista_links = inr s /\
    basename (caminho_zip s) =
      "Geodata_IMAC_" +:+ yyyy +:+ mm +:+ dd +:+ "_" +:+ hh +:+ mi +:+ ".zip" /\
    campo 4 (ano agora) yyyy /\ campo 2 (mes agora) mm /\
    campo 2 (dia agora) dd /\ campo 2 (hora agora) hh /\
    campo 2 (minuto agora) mi.
Proof.
  intros (Hano & Hmes & Hdia & Hhora & Hmin & _).
  assert (Hy : campo 4 (ano agora) (zfill 4 (decimal (ano agora))))
    by (apply quatro_digitos; lia).
  assert (Hm : campo 2 (mes agora) (zfill 2 (decimal (mes agora))))
    by (apply dois_digitos; lia).
  assert (Hd : campo 2 (dia agora) (zfill 2 (decimal (dia agora))))
    by (apply dois_digitos; lia).
  assert (Hh : campo 2 (hora agora) (zfill 2 (decimal (hora agora))))
    by (apply dois_digitos; lia).
  assert (Hi : campo 2 (minuto agora) (zfill 2 (decimal (minuto agora))))
    by (apply dois_digitos; lia).
  eexists. exists (zfill 4 (decimal (ano agora))), (zfill 2 (decimal (mes agora))),
    (zfill 2 (decimal (dia agora))), (zfill 2 (decimal (hora agora))),
    (zfill 2 (decimal (minuto agora))).
  split; [apply processar_downloads_ok |].
  split; [| tauto]. cbn [caminho_zip]. unfold strftime_Ymd_HM.
  rewrite basename_junta.
  - rewrite !app_assoc_s. reflexivity.
  - rewrite !sem_barra_app.
    rewrite (digitos_sem_barra _ (proj1 (proj2 Hy))),
            (digitos_sem_barra _ (proj1 (proj2 Hm))),
            (digitos_sem_barra _ (proj1 (proj2 Hd))),
            (digitos_sem_barra _ (proj1 (proj2 Hh))),
            (digitos_sem_barra _ (proj1 (proj2 Hi))).
    reflexivity.
Qed.

(** C9, as amended. When two links of the list share a file name, that
    name is a plain file name, both downloads finish and no later download
    opens that file (each later link has a path that cannot be that file,
    or fails before its destination is opened), the file written by the
    first is replaced by the second: after the first the directory holds
    the first body, the archive holds the second body under that name, and
    both iterations log a success. *)
Theorem ultimo_download_fica (temp_dir : string) (agora : DataHora)
    (l1 l2 l3 : list Link) (a b : Link) (ca cb : list Byte.byte) :
  filename a = filename b ->
  nome_simples (filename b) = true ->
  efeito rede abre (length l1) a = EscritoInteiro ca ->
  efeito rede abre (length l1 + S (length l2)) b = EscritoInteiro cb ->
  (forall k item, l3 !! k = Some item ->
     alcanca (filename b) (filename item) = false \/
     efeito rede abre (length l1 + S (length l2) + S k) item = NadaEscrito) ->
  exists s,
    processar_downloads temp_dir agora rede abre (l1 ++ a :: l2 ++ b :: l3) = inr s /\
    escritas rede abre 0 (l1 ++ [a]) ∅ !! filename b = Some ca /\
    membros_zip s !! filename b = Some cb /\
    logs s !! length l1 = Some (linha_sucesso a) /\
    logs s !! (length l1 + S (length l2)) = Some (linha_sucesso b).
Proof.
  intros Hnome Hsimples Ha Hb Hl3. eexists. split; [apply processar_downloads_ok |].
  pose proof (destino_simples _ Hsimples) as Hdest.
  cbn [membros_zip logs]. split; [| split; [| split]].
  - rewrite escritas_app. simpl. rewrite Ha, Hnome.
    rewrite (gravar_membro _ _ _ _ Hdest). apply lookup_insert_eq.
  - replace (l1 ++ a :: l2 ++ b :: l3) with ((l1 ++ a :: l2) ++ [b] ++ l3)
      by (now rewrite <- app_assoc).
    rewrite escritas_app, escritas_app. simpl.
    replace (length (l1 ++ a :: l2)) with (length l1 + S (length l2))
      by (rewrite length_app; reflexivity).
    rewrite escritas_intocado.
    + rewrite Hb, (gravar_membro _ _ _ _ Hdest). apply lookup_insert_eq.
    + intros k item Hk.
      replace (length l1 + S (length l2) + 1 + k)
        with (length l1 + S (length l2) + S k) by lia.
      now apply Hl3.
  - rewrite (linhas_lookup _ 0 (length l1) a).
    + unfold linha. simpl. now rewrite Ha.
    + rewrite lookup_app_r by lia. now rewrite Nat.sub_diag.
  - rewrite (linhas_lookup _ 0 (length l1 + S (length l2)) b).
    + unfold linha. simpl. now rewrite Hb.
    + rewrite lookup_app_r by lia.
      replace (length l1 + S (length l2) - length l1) with (S (length l2)) by lia.
      simpl. rewrite lookup_app_r by lia. now rewrite Nat.sub_diag.
Qed.

End PipelineTeoremas.

(** The amended C1 on three links whose second request is refused: two
    success lines, one failure line, and an archive with the two files of
    the finished downloads. *)
Lemma falhas_isoladas_witness :
  exists s,
    processar_downloads "/tmp/tmpq1" agora_exemplo rede_segundo_recusado sempre_abre
      [link_a; link_b; link_c] = inr s /\
    length (List.filter e_sucesso (logs s)) = 2 /\
    length (List.filter e_falha (logs s)) = 1 /\
    dom (membros_zip s) = {[ filename link_a; filename link_c ]}.
Proof.
  destruct (falhas_isoladas rede_segundo_recusado sempre_abre "/tmp/tmpq1"
              agora_exemplo [link_a; link_b; link_c])
    as (s & Hs & _ & _ & Hok & Hfalha & _ & Hzip).
  assert (Hnomes : Forall (fun item => nome_simples (filename item) = true)
                     [link_a; link_b; link_c]) by (repeat constructor).
  destruct (Hzip eq_refl Hnomes) as [Hdom _].
  exists s. split; [exact Hs |]. split; [exact Hok |]. split; [exact Hfalha |].
  rewrite Hdom. simpl. set_solver.
Defined.

(** C1 as stated fails: the connection of the second of three links drops
    after the destination was opened. The download is logged as failed,
    the two others as successes, and the archive has three members: the
    three bytes written for the second link are bundled with the two
    finished files. *)
Lemma parcial_entra_no_pacote :
  exists s,
    processar_downloads "/tmp/tmpq1" agora_exemplo rede_segundo_cortado sempre_abre
      [link_a; link_b; link_c] = inr s /\
    sucedidos rede_segundo_cortado sempre_abre 0 [link_a; link_b; link_c] =
      [link_a; link_c] /\
    falhados rede_segundo_cortado sempre_abre 0 [link_a; link_b; link_c] = [link_b] /\
    logs s = [ linha_sucesso link_a; linha_falha link_b; linha_sucesso link_c ] /\
    membros_zip s !! filename link_b = Some (list_byte_of_string "PK.") /\
    size (membros_zip s) = 3.
Proof.
  eexists. split; [apply processar_downloads_ok |].
  repeat split; vm_compute; reflexivity.
Qed.

(** A download whose path goes through a directory that does not exist is
    logged as failed, whatever the network answers, and leaves nothing in
    the archive. *)
Example diretorio_que_nao_existe :
  (fun r => match r with
            | inr s => (logs s, size (membros_zip s))
            | inl _ => ([], 0)
            end)
    (processar_downloads "/tmp/tmpq1" agora_exemplo rede_boa sempre_abre
       [ {| item_url := "https://imac.ac.gov.br/a"; filename := "sub/imac_supressao.zip";
            origem := "LICENCIAMENTO" |} ]) =
  ([ "❌ **sub/imac_supressao.zip**: Falha no download" ], 0).
Proof. vm_compute. reflexivity. Qed.

(** The loop of the model does raise when the divisor is zero: with a
    wrong [total] the first iteration stops on the quotient. *)
Example divisor_zero_levanta :
  laco rede_boa sempre_abre 0 0 [link_a] estado_inicial = inl ZeroDivisionError.
Proof. reflexivity. Qed.

(** C8 on 4 November 2026, 09:05:59. *)
Lemma nome_do_pacote_witness :
  data_valida agora_exemplo /\
  exists s yyyy mm dd hh mi,
    processar_downloads "/tmp/tmpq1" agora_exemplo rede_boa sempre_abre [link_a] = inr s /\
    basename (caminho_zip s) =
      "Geodata_IMAC_" +:+ yyyy +:+ mm +:+ dd +:+ "_" +:+ hh +:+ mi +:+ ".zip" /\
    campo 4 (ano agora_exemplo) yyyy /\ campo 2 (mes agora_exemplo) mm /\
    campo 2 (dia agora_exemplo) dd /\ campo 2 (hora agora_exemplo) hh /\
    campo 2 (minuto agora_exemplo) mi.
Proof.
  assert (H : data_valida agora_exemplo) by (unfold data_valida; simpl; lia).
  split; [exact H |].
  exact (nome_do_pacote rede_boa sempre_abre "/tmp/tmpq1" agora_exemplo [link_a] H).
Defined.

Example nome_em_4_de_novembro :
  (fun r => match r with inr s => basename (caminho_zip s) | inl _ => "" end)
    (processar_downloads "/tmp/tmpq1" agora_exemplo rede_boa sempre_abre [link_a]) =
  "Geodata_IMAC_20261104_0905.zip".
Proof. vm_compute. reflexivity. Qed.

(** C9 as stated fails for a file name with a directory part: the two
    links below share the name [../fora.zip] and both downloads finish,
    but [download_dir / "../fora.zip"] is a file of [temp_dir], beside
    [download_dir]; the second download replaces the first there, both are
    logged as successes, and the archive, made of [download_dir], has no
    member at all. *)
Lemma nome_com_diretorio_fica_fora :
  exists s,
    processar_downloads "/tmp/tmpq1" agora_exemplo rede_boa sempre_abre
      [link_fora_a; link_fora_d] = inr s /\
    filename link_fora_a = filename link_fora_d /\
    destino (filename link_fora_d) = Vizinho "fora.zip" /\
    sucedidos rede_boa sempre_abre 0 [link_fora_a; link_fora_d] =
      [link_fora_a; link_fora_d] /\
    logs s = [ linha_sucesso link_fora_a; linha_sucesso link_fora_d ] /\
    membros_zip s = ∅.
Proof.
  eexists. split; [apply processar_downloads_ok |].
  repeat split; vm_compute; reflexivity.
Qed.

(** The amended C9 on three links whose first and third write
    [imac_supressao.zip]: the archive holds the body of the third. *)
Lemma ultimo_download_fica_witness :
  exists s,
    processar_downloads "/tmp/tmpq1" agora_exemplo rede_boa sempre_abre
      ([] ++ link_a :: [link_b] ++ link_d :: []) = inr s /\
    escritas rede_boa sempre_abre 0 ([] ++ [link_a]) ∅ !! filename link_d =
      Some (list_byte_of_string "https://imac.ac.gov.br/a") /\
    membros_zip s !! filename link_d =
      Some (list_byte_of_string "https://imac.ac.gov.br/d") /\
    logs s !! length (@nil Link) = Some (linha_sucesso link_a) /\
    logs s !! (length (@nil Link) + S (length [link_b])) = Some (linha_sucesso link_d).
Proof.
  apply (ultimo_download_fica rede_boa sempre_abre "/tmp/tmpq1" agora_exemplo
           [] [link_b] [] link_a link_d).
  - reflexivity.
  - reflexivity.
  - reflexivity.
  - reflexivity.
  - intros k item Hk. discriminate Hk.
Defined.

(** ** More on the link resolver *)

Section ResolverMais.

Variable urljoin : string -> string -> option string.

Lemma varrer_links_achou (t : Tarefa) (termo nome_final : string)
    (links : list Ancora) (l : Link) :
  varrer_links urljoin t termo nome_final links = Achou l ->
  exists a, In a links /\ casa termo a = true /\
    urljoin (url t) (href a) = Some (item_url l) /\
    filename l = nome_final /\ origem l = nome t.
Proof.
  induction links as [|a resto IH]; simpl; [discriminate |].
  destruct (casa termo a) eqn:Hc.
  - destruct (urljoin (url t) (href a)) as [u|] eqn:Hu; [| discriminate].
    intros H. injection H as <-. exists a. simpl. auto.
  - intros H. destruct (IH H) as (x & Hx & Hrest). exists x. auto.
Qed.

Lemma varrer_alvos_origem (t : Tarefa) (links : list Ancora)
    (itens : list (string * string)) (acc : list Link) (l : Link) :
  In l (fst (varrer_alvos urljoin t links itens acc)) ->
  In l acc \/
  exists termo nome_final, In (termo, nome_final) itens /\
    varrer_links urljoin t termo nome_final links = Achou l.
Proof.
  revert acc. induction itens as [|[termo nome_final] resto IH]; intros acc; simpl.
  - now left.
  - destruct (varrer_links urljoin t termo nome_final links) as [|x|e] eqn:Hv.
    + intros H. destruct (IH _ H) as [Ha | (tm & nf & Hin & Hl)]; [now left |].
      right. exists tm, nf. auto.
    + intros H. destruct (IH _ H) as [Ha | (tm & nf & Hin & Hl)].
      * apply in_app_or in Ha. destruct Ha as [Ha | [-> | []]]; [now left |].
        right. exists termo, nome_final. auto.
      * right. exists tm, nf. auto.
    + simpl. now left.
Qed.

(** X1. Every link of the result comes from an anchor that passed the test
    on a page that was fetched: there are a source of the list whose fetch
    did not fail, a target of that source with the file name of the link,
    and an anchor of its page that passes the test for the term of the
    target and whose href resolves to the URL of the link; the origin of
    the link is the name of the source. *)
Theorem todo_link_tem_ancora (web : string -> Resposta) (ts : list Tarefa)
    (l : Link) :
  In l (links_para_baixar (varrer urljoin web ts)) ->
  exists t termo a,
    In t ts /\ busca_falhou (web (url t)) = false /\
    In (termo, filename l) (alvos t) /\
    In a (ancoras_de (web (url t))) /\ casa termo a = true /\
    urljoin (url t) (href a) = Some (item_url l) /\
    origem l = nome t.
Proof.
  rewrite links_varrer. rewrite in_concat.
  intros (c & Hc & Hl). apply in_map_iff in Hc. destruct Hc as (t & <- & Ht).
  unfold contribuicao, corpo_try in Hl.
  destruct (web (url t)) as [|status_code ancoras] eqn:Hw; [destruct Hl |].
  destruct (raise_for_status status_code) eqn:Hs; [destruct Hl |].
  destruct (varrer_alvos_origem t ancoras _ _ l Hl) as [[] | (termo & nf & Hin & Hv)].
  destruct (varrer_links_achou t termo nf ancoras l Hv) as (a & Ha & Hc & Hu & Hf & Ho).
  exists t, termo, a. rewrite Hw. simpl. rewrite Hs, Hf. auto 10.
Qed.

Lemma length_varrer_alvos (t : Tarefa) (links : list Ancora)
    (itens : list (string * string)) (acc : list Link) :
  length (fst (varrer_alvos urljoin t links itens acc)) <= length acc + length itens.
Proof.
  revert acc. induction itens as [|[termo nome_final] resto IH]; intros acc; simpl.
  - lia.
  - destruct (varrer_links urljoin t termo nome_final links) as [|x|e]; simpl.
    + specialize (IH acc). lia.
    + specialize (IH (acc ++ [x])). rewrite length_app in IH. simpl in IH. lia.
    + lia.
Qed.

Lemma length_contribuicao (web : string -> Resposta) (t : Tarefa) :
  length (contribuicao urljoin web t) <= length (alvos t).
Proof.
  unfold contribuicao, corpo_try.
  destruct (web (url t)) as [|status_code ancoras]; simpl; [lia |].
  destruct (raise_for_status status_code); simpl; [lia |].
  apply (length_varrer_alvos t ancoras (alvos t) []).
Qed.

(** X2. A source yields at most one link per target, so the result has at
    most as many links as the sources have targets; with the sources of
    the script, at most four. *)
Theorem no_maximo_um_link_por_alvo (web : string -> Resposta) (ts : list Tarefa) :
  Forall (fun t => length (contribuicao urljoin web t) <= length (alvos t)) ts /\
  length (links_para_baixar (varrer urljoin web ts)) <=
    length (concat (map alvos ts)) /\
  length (obter_links_download urljoin web) <= 4.
Proof.
  assert (Hsoma : forall l,
    length (links_para_baixar (varrer urljoin web l)) <= length (concat (map alvos l))).
  { intros l. rewrite links_varrer. induction l as [|t l IH]; simpl; [lia |].
    rewrite !length_app. pose proof (length_contribuicao web t). lia. }
  split; [| split].
  - apply Forall_forall. intros t _. apply length_contribuicao.
  - apply Hsoma.
  - apply (Hsoma tarefas).
Qed.

Lemma varrer_links_sem_excecao (t : Tarefa) (termo nome_final : string)
    (links : list Ancora) :
  Forall (fun a => is_Some (urljoin (url t) (href a))) links ->
  (existsb (casa termo) links = true ->
     exists l, varrer_links urljoin t termo nome_final links = Achou l) /\
  (existsb (casa termo) links = false ->
     varrer_links urljoin t termo nome_final links = Nenhum).
Proof.
  induction 1 as [|a resto [u Hu] _ [IH1 IH2]]; simpl.
  - split; [discriminate | reflexivity].
  - destruct (casa termo a); simpl.
    + rewrite Hu. split; [eauto | discriminate].
    + split; assumption.
Qed.

Lemma omap_cons_achado {A B : Type} (f : A -> option B) (x : A) (l : list A) :
  omap f (x :: l) = match f x with
                    | Some y => y :: omap f l
                    | None => omap f l
                    end.
Proof. reflexivity. Qed.

Lemma varrer_alvos_sem_excecao (t : Tarefa) (links : list Ancora)
    (itens : list (string * string)) :
  Forall (fun a => is_Some (urljoin (url t) (href a))) links ->
  varrer_alvos urljoin t links itens [] =
    (omap (achado urljoin t links) itens, None) /\
  map filename (omap (achado urljoin t links) itens) =
    map snd (List.filter (fun alvo => existsb (casa (fst alvo)) links) itens).
Proof.
  intros Hu. induction itens as [|[termo nome_final] resto [IH1 IH2]].
  - split; reflexivity.
  - destruct (varrer_links_sem_excecao t termo nome_final links Hu) as [Hsim Hnao].
    rewrite omap_cons_achado. cbn [varrer_alvos List.filter fst].
    destruct (existsb (casa termo) links) eqn:He.
    + destruct (Hsim eq_refl) as [l Hl].
      assert (Ha : achado urljoin t links (termo, nome_final) = Some l)
        by (unfold achado; simpl; now rewrite Hl).
      rewrite Hl, Ha, varrer_alvos_acc, IH1. cbn [fst snd app map].
      split; [reflexivity |]. rewrite IH2. f_equal.
      destruct (varrer_links_achou t termo nome_final links l Hl)
        as (_ & _ & _ & _ & Hf & _).
      exact Hf.
    + assert (Ha : achado urljoin t links (termo, nome_final) = None)
        by (unfold achado; simpl; now rewrite (Hnao eq_refl)).
      rewrite (Hnao eq_refl), Ha. split; [exact IH1 | exact IH2].
Qed.

(** X3. When the page of a source is fetched and [urljoin] accepts the
    href of every anchor of the page, no exception ends the source: every
    target is scanned, and the source yields, in the order of its targets,
    one link for each target whose term passes the test on some anchor of
    the page, and nothing for the other targets. *)
Theorem fonte_sem_excecao (web : string -> Resposta) (t : Tarefa)
    (status_code : nat) (pagina : list Ancora) :
  web (url t) = Http status_code pagina ->
  raise_for_status status_code = false ->
  Forall (fun a => is_Some (urljoin (url t) (href a))) pagina ->
  excecao_da_fonte urljoin web t = None /\
  contribuicao urljoin web t = omap (achado urljoin t pagina) (alvos t) /\
  map filename (contribuicao urljoin web t) =
    map snd (List.filter (fun alvo => existsb (casa (fst alvo)) pagina) (alvos t)).
Proof.
  intros Hw Hs Hu. unfold excecao_da_fonte, contribuicao, corpo_try.
  rewrite Hw, Hs.
  destruct (varrer_alvos_sem_excecao t pagina (alvos t) Hu) as [H1 H2].
  rewrite H1. simpl. auto.
Qed.

Lemma varrer_alvos_app (t : Tarefa) (links : list Ancora)
    (pre pos : list (string * string)) (acc : list Link) :
  snd (varrer_alvos urljoin t links pre acc) = None ->
  varrer_alvos urljoin t links (pre ++ pos) acc =
  varrer_alvos urljoin t links pos (fst (varrer_alvos urljoin t links pre acc)).
Proof.
  revert acc. induction pre as [|[termo nome_final] resto IH]; intros acc; simpl.
  - reflexivity.
  - destruct (varrer_links urljoin t termo nome_final links) as [|x|e]; simpl.
    + apply IH.
    + apply IH.
    + discriminate.
Qed.

Lemma erros_passo (web : string -> Resposta) (v : Varredura) (t : Tarefa) :
  erros (passo urljoin web v t) =
  erros v ++ match excecao_da_fonte urljoin web t with
             | Some e => [(url t, e)]
             | None => []
             end.
Proof.
  unfold passo, excecao_da_fonte.
  rewrite (corpo_try_acc urljoin _ _ (links_para_baixar v)).
  destruct (snd (corpo_try urljoin (web (url t)) t [])); simpl;
    [reflexivity | now rewrite app_nil_r].
Qed.

Lemma erros_varrer_de (web : string -> Resposta) (ts : list Tarefa) (v : Varredura) :
  erros (varrer_de urljoin web ts v) =
  erros v ++
  omap (fun t => option_map (pair (url t)) (excecao_da_fonte urljoin web t)) ts.
Proof.
  revert v. induction ts as [|t ts IH]; intros v; simpl.
  - now rewrite app_nil_r.
  - unfold varrer_de in *. simpl. rewrite IH, erros_passo, <- app_assoc. f_equal.
    now destruct (excecao_da_fonte urljoin web t).
Qed.

(** X4. An exception in the middle of a source (here [urljoin] raising on
    the anchor selected for a target) keeps the links already appended for
    the earlier targets of that source, skips its later targets whatever
    they are, logs the exception for the source, and lets the scan go on
    with the sources that follow. *)
Theorem excecao_no_meio_da_fonte (web : string -> Resposta)
    (antes depois : list Tarefa) (t : Tarefa) (status_code : nat)
    (pagina : list Ancora) (pre pos : list (string * string))
    (termo nome_final : string) (e : Excecao) :
  web (url t) = Http status_code pagina ->
  raise_for_status status_code = false ->
  alvos t = pre ++ (termo, nome_final) :: pos ->
  snd (varrer_alvos urljoin t pagina pre []) = None ->
  varrer_links urljoin t termo nome_final pagina = Levantou e ->
  contribuicao urljoin web t = fst (varrer_alvos urljoin t pagina pre []) /\
  excecao_da_fonte urljoin web t = Some e /\
  links_para_baixar (varrer urljoin web (antes ++ t :: depois)) =
    links_para_baixar (varrer urljoin web antes) ++
    fst (varrer_alvos urljoin t pagina pre []) ++
    links_para_baixar (varrer urljoin web depois) /\
  In (url t, e) (erros (varrer urljoin web (antes ++ t :: depois))).
Proof.
  intros Hw Hs Halvos Hpre Hlev.
  assert (Hcorpo : corpo_try urljoin (web (url t)) t [] =
                   (fst (varrer_alvos urljoin t pagina pre []), Some e)).
  { unfold corpo_try. rewrite Hw, Hs, Halvos.
    rewrite varrer_alvos_app by exact Hpre. simpl. now rewrite Hlev. }
  assert (Hc : contribuicao urljoin web t = fst (varrer_alvos urljoin t pagina pre []))
    by (unfold contribuicao; now rewrite Hcorpo).
  assert (He : excecao_da_fonte urljoin web t = Some e)
    by (unfold excecao_da_fonte; now rewrite Hcorpo).
  split; [exact Hc |]. split; [exact He |]. split.
  - rewrite links_varrer_app. f_equal.
    change (t :: depois) with ([t] ++ depois). rewrite links_varrer_app.
    rewrite (links_varrer urljoin web [t]). simpl. now rewrite app_nil_r, Hc.
  - unfold varrer. rewrite erros_varrer_de. simpl.
    rewrite omap_app. simpl. rewrite He. simpl.
    apply in_or_app. right. now left.
Qed.

(** X5. The error log has exactly one record per source whose [try] body
    raised, in the order of the sources, with the URL of the source and
    the exception; so it never has more records than there are sources. *)
Theorem um_erro_por_fonte_que_levanta (web : string -> Resposta) (ts : list Tarefa) :
  erros (varrer urljoin web ts) =
    omap (fun t => option_map (pair (url t)) (excecao_da_fonte urljoin web t)) ts /\
  length (erros (varrer urljoin web ts)) <= length ts.
Proof.
  assert (H : erros (varrer urljoin web ts) =
    omap (fun t => option_map (pair (url t)) (excecao_da_fonte urljoin web t)) ts)
    by (unfold varrer; now rewrite erros_varrer_de).
  split; [exact H |]. rewrite H. clear H.
  induction ts as [|t ts IH]; [reflexivity |].
  rewrite omap_cons_achado. cbn [length].
  destruct (excecao_da_fonte urljoin web t); cbn [option_map length]; lia.
Qed.

Lemma varrer_links_nenhum (t : Tarefa) (termo nome_final : string)
    (links : list Ancora) :
  existsb (casa termo) links = false ->
  varrer_links urljoin t termo nome_final links = Nenhum.
Proof.
  induction links as [|a resto IH]; simpl; [reflexivity |].
  destruct (casa termo a); simpl; [discriminate | exact IH].
Qed.

(** X6. A fetched page on which no anchor passes the test for any term of
    the source is not an error: the iteration on that source leaves the
    list of links and the error log as they were, and only records the
    page request. *)
Theorem sem_ancora_nao_e_erro (web : string -> Resposta) (v : Varredura)
    (t : Tarefa) (status_code : nat) (pagina : list Ancora) :
  web (url t) = Http status_code pagina ->
  raise_for_status status_code = false ->
  Forall (fun alvo => existsb (casa (fst alvo)) pagina = false) (alvos t) ->
  passo urljoin web v t =
    {| links_para_baixar := links_para_baixar v;
       pedidos := pedidos v ++ [url t];
       erros := erros v |}.
Proof.
  intros Hw Hs Hnada. unfold passo, corpo_try. rewrite Hw, Hs.
  assert (H : forall acc, varrer_alvos urljoin t pagina (alvos t) acc = (acc, None)).
  { induction Hnada as [|[termo nome_final] resto Hx _ IH]; intros acc; simpl;
      [reflexivity |].
    simpl in Hx. now rewrite (varrer_links_nenhum t termo nome_final pagina Hx). }
  now rewrite H.
Qed.

End ResolverMais.

(** X1 on the first link found when both pages are served. *)
Lemma todo_link_tem_ancora_witness :
  exists t termo a,
    In t tarefas /\ busca_falhou (web_no_ar (url t)) = false /\
    In (termo, "imac_supressao.zip") (alvos t) /\
    In a (ancoras_de (web_no_ar (url t))) /\ casa termo a = true /\
    urljoin_exemplo (url t) (href a) =
      Some "https://imac.ac.gov.br/licenciamento/arquivos/supressao_2024.zip" /\
    "LICENCIAMENTO" = nome t.
Proof.
  apply (todo_link_tem_ancora urljoin_exemplo web_no_ar tarefas
           {| item_url := "https://imac.ac.gov.br/licenciamento/arquivos/supressao_2024.zip";
              filename := "imac_supressao.zip"; origem := "LICENCIAMENTO" |}).
  vm_compute. left. reflexivity.
Defined.

(** X3 on the licensing page: both targets are scanned and both find an
    archive. *)
Lemma fonte_sem_excecao_witness :
  excecao_da_fonte urljoin_exemplo web_no_ar tarefa_licenciamento = None /\
  contribuicao urljoin_exemplo web_no_ar tarefa_licenciamento =
    omap (achado urljoin_exemplo tarefa_licenciamento pagina_licenciamento)
         (alvos tarefa_licenciamento) /\
  map filename (contribuicao urljoin_exemplo web_no_ar tarefa_licenciamento) =
    map snd (List.filter
               (fun alvo => existsb (casa (fst alvo)) pagina_licenciamento)
               (alvos tarefa_licenciamento)).
Proof.
  apply (fonte_sem_excecao urljoin_exemplo web_no_ar tarefa_licenciamento 200
           pagina_licenciamento).
  - reflexivity.
  - reflexivity.
  - repeat (constructor; [eexists; reflexivity |]). constructor.
Defined.

(** X4 on the page whose second archive has a reference that [urljoin]
    refuses: the link of the first target stays, and the enforcement
    source is scanned all the same. *)
Lemma excecao_no_meio_da_fonte_witness :
  contribuicao urljoin_exemplo web_referencia_ruim tarefa_licenciamento =
    [ {| item_url := "https://imac.ac.gov.br/licenciamento/arquivos/supressao_2024.zip";
         filename := "imac_supressao.zip"; origem := "LICENCIAMENTO" |} ] /\
  length (links_para_baixar
            (varrer urljoin_exemplo web_referencia_ruim
               ([] ++ tarefa_licenciamento :: [tarefa_fiscalizacao]))) = 3 /\
  In (url tarefa_licenciamento, ValueError)
    (erros (varrer urljoin_exemplo web_referencia_ruim
              ([] ++ tarefa_licenciamento :: [tarefa_fiscalizacao]))).
Proof.
  destruct (excecao_no_meio_da_fonte urljoin_exemplo web_referencia_ruim
              [] [tarefa_fiscalizacao] tarefa_licenciamento 200
              pagina_com_referencia_ruim
              [("SUPRESSAO", "imac_supressao.zip")] []
              "USO-ALTERNATIVO" "imac_uso_alternativo.zip" ValueError
              eq_refl eq_refl eq_refl eq_refl eq_refl)
    as (Hc & _ & Hl & He).
  split; [exact Hc |]. split; [| exact He].
  rewrite Hl. reflexivity.
Defined.

(** X6 on a licensing page that only has a [.pdf]. *)
Lemma sem_ancora_nao_e_erro_witness :
  passo urljoin_exemplo web_sem_arquivos varredura_inicial tarefa_licenciamento =
    {| links_para_baixar := links_para_baixar varredura_inicial;
       pedidos := pedidos varredura_inicial ++ [url tarefa_licenciamento];
       erros := erros varredura_inicial |}.
Proof.
  apply (sem_ancora_nao_e_erro urljoin_exemplo web_sem_arquivos varredura_inicial
           tarefa_licenciamento 200 pagina_sem_arquivos).
  - reflexivity.
  - reflexivity.
  - repeat constructor.
Defined.

(** ** More on the fetch-and-bundle pipeline *)

Lemma lookup_map_seq {A : Type} (f : nat -> A) (k idx i : nat) :
  i < k -> map f (seq idx k) !! i = Some (f (idx + i)).
Proof.
  revert idx i. induction k as [|k IH]; intros idx i Hi; [lia |].
  destruct i as [|i]; simpl.
  - now rewrite Nat.add_0_r.
  - rewrite IH by lia. do 2 f_equal. lia.
Qed.

Lemma fracoes_lookup (total idx k i : nat) :
  i < k ->
  fracoes total idx k !! i = Some (Z.of_nat (idx + i + 1) # Pos.of_nat total).
Proof. intros Hi. unfold fracoes. now rewrite lookup_map_seq. Qed.

Lemma length_fracoes (total idx k : nat) : length (fracoes total idx k) = k.
Proof. unfold fracoes. now rewrite length_map, length_seq. Qed.

Section PipelineMais.

Variable rede : nat -> string -> Download.
Variable abre : string -> bool.

(** X7. The bar starts at 0 and then shows [i / n] after the [i]-th of the
    [n] links: it has [n + 1] values, each between 0 and 1, every value
    greater than the one before, and it ends on 1 as soon as there is a
    link (on 0 when there is none). *)
Theorem barra_de_progresso (temp_dir : string) (agora : DataHora)
    (lista_links : list Link) :
  exists s,
    processar_downloads temp_dir agora rede abre lista_links = inr s /\
    length (barra s) = S (length lista_links) /\
    barra s !! 0 = Some 0%Q /\
    (forall i, 1 <= i <= length lista_links ->
       barra s !! i = Some (Z.of_nat i # Pos.of_nat (length lista_links))) /\
    (forall i q, barra s !! i = Some q -> (0 <= q <= 1)%Q) /\
    (forall i q r, barra s !! i = Some q -> barra s !! S i = Some r -> (q < r)%Q) /\
    exists ultimo, last (barra s) = Some ultimo /\
      (ultimo == if (length lista_links =? 0)%nat then 0 else 1)%Q.
Proof.
  eexists. split; [apply processar_downloads_ok |]. cbn [barra].
  set (n := length lista_links). clearbody n.
  assert (Hpos : forall i, 1 <= i <= n ->
            (0%Q :: fracoes n 0 n) !! i = Some (Z.of_nat i # Pos.of_nat n)).
  { intros i Hi. destruct i as [|i]; [lia |]. simpl.
    rewrite fracoes_lookup by lia. do 3 f_equal. lia. }
  assert (Hval : forall i q, (0%Q :: fracoes n 0 n) !! i = Some q ->
            i <= n /\ (i = 0 -> q = 0%Q) /\
            (1 <= i -> q = Z.of_nat i # Pos.of_nat n)).
  { intros i q Hq. assert (Hi : i <= n).
    { apply lookup_lt_Some in Hq. simpl in Hq. rewrite length_fracoes in Hq. lia. }
    split; [exact Hi |]. split.
    - intros ->. simpl in Hq. congruence.
    - intros H1. rewrite Hpos in Hq by lia. congruence. }
  split; [simpl; now rewrite length_fracoes |].
  split; [reflexivity |].
  split; [exact Hpos |].
  split; [| split].
  - intros i q Hq. destruct (Hval i q Hq) as (Hi & H0 & H1).
    destruct i as [|i].
    + rewrite (H0 eq_refl). split; unfold Qle; simpl; lia.
    + rewrite (H1 ltac:(lia)). unfold Qle. simpl.
      rewrite Zpos_of_nat by lia. lia.
  - intros i q r Hq Hr.
    destruct (Hval i q Hq) as (Hi & H0 & H1).
    destruct (Hval (S i) r Hr) as (Hi' & _ & H1').
    rewrite (H1' ltac:(lia)). destruct i as [|i].
    + rewrite (H0 eq_refl). unfold Qlt. simpl. lia.
    + rewrite (H1 ltac:(lia)). unfold Qlt. simpl.
      rewrite Zpos_of_nat by lia. nia.
  - rewrite last_lookup. simpl. rewrite length_fracoes.
    destruct (Nat.eqb_spec n 0) as [->|Hn].
    + exists 0%Q. split; [reflexivity | apply Qeq_refl].
    + exists (Z.of_nat n # Pos.of_nat n). split.
      * apply Hpos. lia.
      * unfold Qeq. simpl. rewrite Zpos_of_nat by lia. lia.
Qed.

Lemma dom_escritas_abriu (f : string) (itens : list Link) (idx : nat)
    (d : gmap string (list Byte.byte)) :
  f ∈ dom (escritas rede abre idx itens d) <->
  f ∈ dom d \/
  exists k item, itens !! k = Some item /\ destino (filename item) = Membro f /\
    abriu (efeito rede abre (idx + k) item) = true.
Proof.
  revert idx d. induction itens as [|item resto IH]; intros idx d.
  - simpl. split; [now left |]. intros [H | (k & x & Hk & _)]; [exact H | discriminate].
  - cbn [escritas]. rewrite IH. split.
    + intros [Hd | (k & x & Hk & Hf & Ha)].
      * destruct (efeito rede abre idx item) eqn:He.
        -- now left.
        -- apply dom_gravar in Hd. destruct Hd as [Hd | Hd]; [now left |].
           right. exists 0, item. rewrite Nat.add_0_r, He. auto.
        -- apply dom_gravar in Hd. destruct Hd as [Hd | Hd]; [now left |].
           right. exists 0, item. rewrite Nat.add_0_r, He. auto.
      * right. exists (S k), x. replace (idx + S k) with (S idx + k) by lia. auto.
    + intros [Hd | (k & x & Hk & Hf & Ha)].
      * left. destruct (efeito rede abre idx item); [exact Hd | |];
          apply dom_gravar; now left.
      * destruct k as [|k]; simpl in Hk.
        -- injection Hk as <-. rewrite Nat.add_0_r in Ha. left.
           destruct (efeito rede abre idx item); [discriminate | |];
             apply dom_gravar; now right.
        -- right. exists k, x. replace (S idx + k) with (idx + S k) by lia. auto.
Qed.

Lemma size_escritas (itens : list Link) (idx : nat)
    (d : gmap string (list Byte.byte)) :
  size (escritas rede abre idx itens d) <= size d + length itens.
Proof.
  revert idx d. induction itens as [|item resto IH]; intros idx d; cbn [escritas length].
  - lia.
  - etransitivity; [apply IH |].
    destruct (efeito rede abre idx item) as [|b|b]; [lia | |];
      pose proof (size_gravar (filename item) b d); lia.
Qed.

(** X8. When the path of every link is followed to the end (no file name
    is absolute or climbs above the temporary directory), a file is a
    member of the archive exactly when the download of some link whose
    path [download_dir / fname] is that file of [download_dir] got as far
    as opening the destination, whether it finished or not. So every
    member is the destination of a link of the list, the archive has at
    most as many members as the list has links, and for plain file names
    the members are the file names of the links that were opened. *)
Theorem membros_do_pacote (temp_dir : string) (agora : DataHora)
    (lista_links : list Link) :
  Forall (fun item => seguido (filename item) = true) lista_links ->
  exists s,
    processar_downloads temp_dir agora rede abre lista_links = inr s /\
    (forall f, f ∈ dom (membros_zip s) <->
       exists k item, lista_links !! k = Some item /\
         destino (filename item) = Membro f /\
         abriu (efeito rede abre k item) = true) /\
    (forall f, f ∈ dom (membros_zip s) ->
       In (Membro f) (map (fun item => destino (filename item)) lista_links)) /\
    size (membros_zip s) <= length lista_links /\
    (Forall (fun item => nome_simples (filename item) = true) lista_links ->
     forall f, f ∈ dom (membros_zip s) <->
       exists k item, lista_links !! k = Some item /\ filename item = f /\
         abriu (efeito rede abre k item) = true).
Proof.
  intros _. eexists. split; [apply processar_downloads_ok |]. cbn [membros_zip].
  assert (Hiff : forall f, f ∈ dom (escritas rede abre 0 lista_links ∅) <->
            exists k item, lista_links !! k = Some item /\
              destino (filename item) = Membro f /\
              abriu (efeito rede abre k item) = true).
  { intros f. rewrite dom_escritas_abriu. split.
    - intros [H | H]; [set_solver | exact H].
    - intros H. right. exact H. }
  split; [exact Hiff |]. split; [| split].
  - intros f Hf. apply Hiff in Hf. destruct Hf as (k & item & Hk & <- & _).
    apply (in_map (fun item => destino (filename item))).
    apply list_elem_of_In. now apply (list_elem_of_lookup_2 _ k).
  - pose proof (size_escritas lista_links 0 ∅) as H.
    rewrite map_size_empty in H. exact H.
  - intros Hnomes f. rewrite Hiff. split.
    + intros (k & item & Hk & Hd & Ha). exists k, item.
      pose proof (Forall_lookup_1 _ _ _ _ Hnomes Hk) as Hn. simpl in Hn.
      rewrite (destino_simples _ Hn) in Hd. injection Hd as Hd. auto.
    + intros (k & item & Hk & Hd & Ha). exists k, item.
      pose proof (Forall_lookup_1 _ _ _ _ Hnomes Hk) as Hn. simpl in Hn.
      rewrite (destino_simples _ Hn), Hd. auto.
Qed.

(** X9. A download that is cut after its destination was opened replaces
    a file that an earlier download had finished at the same place of
    [download_dir], under the same file name or under another spelling of
    it: when the path of no later link can be that file, the archive holds
    the partial bytes under that name, while the log keeps the success
    line of the earlier link beside the failure line of the later one. *)
Theorem download_cortado_sobrescreve (temp_dir : string) (agora : DataHora)
    (l1 l2 l3 : list Link) (a b : Link) (n : string)
    (ca parcial : list Byte.byte) :
  destino (filename a) = Membro n ->
  destino (filename b) = Membro n ->
  efeito rede abre (length l1) a = EscritoInteiro ca ->
  efeito rede abre (length l1 + S (length l2)) b = EscritoParcial parcial ->
  Forall (fun item => alcanca n (filename item) = false) l3 ->
  exists s,
    processar_downloads temp_dir agora rede abre (l1 ++ a :: l2 ++ b :: l3) = inr s /\
    escritas rede abre 0 (l1 ++ [a]) ∅ !! n = Some ca /\
    membros_zip s !! n = Some parcial /\
    logs s !! length l1 = Some (linha_sucesso a) /\
    logs s !! (length l1 + S (length l2)) = Some (linha_falha b).
Proof.
  intros Hda Hdb Ha Hb Hl3. eexists. split; [apply processar_downloads_ok |].
  cbn [membros_zip logs]. split; [| split; [| split]].
  - rewrite escritas_app. simpl. rewrite Ha.
    rewrite (gravar_membro _ _ _ _ Hda). apply lookup_insert_eq.
  - replace (l1 ++ a :: l2 ++ b :: l3) with ((l1 ++ a :: l2) ++ [b] ++ l3)
      by (now rewrite <- app_assoc).
    rewrite escritas_app, escritas_app. simpl.
    rewrite escritas_outros by exact Hl3.
    replace (length (l1 ++ a :: l2)) with (length l1 + S (length l2))
      by (rewrite length_app; reflexivity).
    rewrite Hb, (gravar_membro _ _ _ _ Hdb). apply lookup_insert_eq.
  - rewrite (linhas_lookup rede abre _ 0 (length l1) a).
    + unfold linha. simpl. now rewrite Ha.
    + rewrite lookup_app_r by lia. now rewrite Nat.sub_diag.
  - rewrite (linhas_lookup rede abre _ 0 (length l1 + S (length l2)) b).
    + unfold linha. simpl. now rewrite Hb.
    + rewrite lookup_app_r by lia.
      replace (length l1 + S (length l2) - length l1) with (S (length l2)) by lia.
      simpl. rewrite lookup_app_r by lia. now rewrite Nat.sub_diag.
Qed.

End PipelineMais.

(** *** The archive name and the minute *)

Lemma app_inv_head_s (p a b : string) : p +:+ a = p +:+ b -> a = b.
Proof.
  induction p as [|c r IH]; simpl; [auto |].
  intros H. injection H as H. auto.
Qed.

Lemma app_inj_comprimento (a1 r1 a2 r2 : string) :
  a1 +:+ r1 = a2 +:+ r2 -> String.length a1 = String.length a2 ->
  a1 = a2 /\ r1 = r2.
Proof.
  revert a2. induction a1 as [|c r IH]; intros [|d t]; simpl; intros Heq Hlen;
    try discriminate.
  - auto.
  - injection Heq as -> Heq. injection Hlen as Hlen.
    destruct (IH t Heq Hlen) as [-> ->]. auto.
Qed.

Lemma campos_iguais (w n m : nat) (s : string) : campo w n s -> campo w m s -> n = m.
Proof. intros (_ & _ & <-) (_ & _ & <-). reflexivity. Qed.

Lemma campos_da_data (d : DataHora) :
  data_valida d ->
  campo 4 (ano d) (zfill 4 (decimal (ano d))) /\
  campo 2 (mes d) (zfill 2 (decimal (mes d))) /\
  campo 2 (dia d) (zfill 2 (decimal (dia d))) /\
  campo 2 (hora d) (zfill 2 (decimal (hora d))) /\
  campo 2 (minuto d) (zfill 2 (decimal (minuto d))).
Proof.
  intros (Hano & Hmes & Hdia & Hhora & Hmin & _).
  repeat split; try (apply quatro_digitos; lia); try (apply dois_digitos; lia);
    try (apply (quatro_digitos (ano d)); lia);
    try (apply (dois_digitos (mes d)); lia);
    try (apply (dois_digitos (dia d)); lia);
    try (apply (dois_digitos (hora d)); lia);
    try (apply (dois_digitos (minuto d)); lia).
Qed.

Lemma sem_barra_strftime (d : DataHora) :
  data_valida d -> sem_barra (strftime_Ymd_HM d) = true.
Proof.
  intros Hd. destruct (campos_da_data d Hd) as (Hy & Hm & Hdd & Hh & Hi).
  unfold strftime_Ymd_HM. rewrite !sem_barra_app.
  rewrite (digitos_sem_barra _ (proj1 (proj2 Hy))),
          (digitos_sem_barra _ (proj1 (proj2 Hm))),
          (digitos_sem_barra _ (proj1 (proj2 Hdd))),
          (digitos_sem_barra _ (proj1 (proj2 Hh))),
          (digitos_sem_barra _ (proj1 (proj2 Hi))).
  reflexivity.
Qed.

Lemma length_strftime (d : DataHora) :
  data_valida d -> String.length (strftime_Ymd_HM d) = 13.
Proof.
  intros Hd. destruct (campos_da_data d Hd) as (Hy & Hm & Hdd & Hh & Hi).
  unfold strftime_Ymd_HM. rewrite !length_app_s.
  rewrite (proj1 Hy), (proj1 Hm), (proj1 Hdd), (proj1 Hh), (proj1 Hi). reflexivity.
Qed.

(** The base name of the archive path, for a valid [datetime]. *)
Lemma basename_do_pacote (temp_dir : string) (d : DataHora) :
  data_valida d ->
  basename (temp_dir +:+ "/" +:+ ("Geodata_IMAC_" +:+ strftime_Ymd_HM d) +:+ ".zip") =
  ("Geodata_IMAC_" +:+ strftime_Ymd_HM d) +:+ ".zip".
Proof.
  intros Hd. apply basename_junta. rewrite !sem_barra_app.
  now rewrite (sem_barra_strftime d Hd).
Qed.

Lemma strftime_injetiva (a b : DataHora) :
  data_valida a -> data_valida b ->
  strftime_Ymd_HM a = strftime_Ymd_HM b -> ate_o_minuto a = ate_o_minuto b.
Proof.
  intros Ha Hb Heq.
  destruct (campos_da_data a Ha) as (Hy & Hm & Hd & Hh & Hi).
  destruct (campos_da_data b Hb) as (Hy' & Hm' & Hd' & Hh' & Hi').
  unfold strftime_Ymd_HM in Heq.
  apply app_inj_comprimento in Heq; [| now rewrite (proj1 Hy), (proj1 Hy')].
  destruct Heq as [Ey Heq].
  apply app_inj_comprimento in Heq; [| now rewrite (proj1 Hm), (proj1 Hm')].
  destruct Heq as [Em Heq].
  apply app_inj_comprimento in Heq; [| now rewrite (proj1 Hd), (proj1 Hd')].
  destruct Heq as [Ed Heq].
  apply app_inv_head_s in Heq.
  apply app_inj_comprimento in Heq; [| now rewrite (proj1 Hh), (proj1 Hh')].
  destruct Heq as [Eh Ei].
  rewrite Ey in Hy. rewrite Em in Hm. rewrite Ed in Hd. rewrite Eh in Hh.
  rewrite Ei in Hi. unfold ate_o_minuto.
  rewrite (campos_iguais _ _ _ _ Hy Hy'), (campos_iguais _ _ _ _ Hm Hm'),
          (campos_iguais _ _ _ _ Hd Hd'), (campos_iguais _ _ _ _ Hh Hh'),
          (campos_iguais _ _ _ _ Hi Hi').
  reflexivity.
Qed.

(** X10. For two runs with valid clocks and the same temporary directory,
    the archive paths are equal exactly when the two clocks agree on year,
    month, day, hour and minute, and so are the base names offered to the
    user, whatever the directories: runs in the same minute share a file
    name, runs in different minutes never do. *)
Theorem nome_distingue_o_minuto (temp_a temp_b : string) (a b : DataHora)
    (rede : nat -> string -> Download) (abre : string -> bool)
    (lista_links : list Link) :
  data_valida a -> data_valida b ->
  exists sa sb,
    processar_downloads temp_a a rede abre lista_links = inr sa /\
    processar_downloads temp_b b rede abre lista_links = inr sb /\
    (basename (caminho_zip sa) = basename (caminho_zip sb) <->
       ate_o_minuto a = ate_o_minuto b) /\
    (temp_a = temp_b ->
       (caminho_zip sa = caminho_zip sb <-> ate_o_minuto a = ate_o_minuto b)).
Proof.
  intros Ha Hb. do 2 eexists.
  split; [apply processar_downloads_ok |].
  split; [apply processar_downloads_ok |]. cbn [caminho_zip].
  assert (Hvolta : ate_o_minuto a = ate_o_minuto b ->
                   strftime_Ymd_HM a = strftime_Ymd_HM b).
  { unfold ate_o_minuto, strftime_Ymd_HM. intros H. injection H as -> -> -> -> ->.
    reflexivity. }
  assert (Hnome : ("Geodata_IMAC_" +:+ strftime_Ymd_HM a) +:+ ".zip" =
                  ("Geodata_IMAC_" +:+ strftime_Ymd_HM b) +:+ ".zip" ->
                  ate_o_minuto a = ate_o_minuto b).
  { intros H. rewrite !app_assoc_s in H. apply app_inv_head_s in H.
    apply app_inj_comprimento in H;
      [| now rewrite (length_strftime a Ha), (length_strftime b Hb)].
    apply (strftime_injetiva a b Ha Hb), H. }
  split.
  - rewrite (basename_do_pacote temp_a a Ha), (basename_do_pacote temp_b b Hb).
    split; [exact Hnome |]. intros H. now rewrite (Hvolta H).
  - intros <-. split.
    + intros H. apply app_inv_head_s in H. apply app_inv_head_s in H.
      exact (Hnome H).
    + intros H. now rewrite (Hvolta H).
Qed.

(** ** The button handler *)

Lemma filter_map_sem (p : Evento -> bool) {A : Type} (f : A -> Evento) (l : list A) :
  (forall x, p (f x) = false) -> List.filter p (map f l) = [].
Proof.
  intros H. induction l as [|x l IH]; simpl; [reflexivity |]. now rewrite H.
Qed.

(** What the handler does once discovery returned at least one link. *)
Lemma ao_clicar_com_links (l : Link) (resto : list Link) (temp_dir : string)
    (agora : DataHora) (rede : nat -> string -> Download) (abre : string -> bool)
    (limpeza : option string) :
  ao_clicar (l :: resto) temp_dir agora rede abre limpeza =
  (([ StStatus "Processando..."; StWrite "🔍 Verificando site do IMAC...";
      StWrite ("📂 " +:+ decimal (length (l :: resto)) +:+
               " arquivos identificados. Iniciando download...") ] ++
    map StProgress (0%Q :: fracoes (length (l :: resto)) 0 (length (l :: resto))) ++
    map StWrite (linhas rede abre 0 (l :: resto)) ++
    [ StatusUpdate "Processamento Concluído!" "complete";
      StSuccess "Pacote pronto para download.";
      StDownloadButton "📥 BAIXAR PACOTE UNIFICADO (.ZIP)"
        (escritas rede abre 0 (l :: resto) ∅)
        (basename (temp_dir +:+ "/" +:+
                   ("Geodata_IMAC_" +:+ strftime_Ymd_HM agora) +:+ ".zip"))
        "application/zip" ]) ++
   [ limpar limpeza temp_dir ], None).
Proof.
  unfold ao_clicar. rewrite processar_downloads_ok.
  cbn [barra logs membros_zip caminho_zip temp_folder].
  f_equal. cbn [app]. do 3 f_equal. rewrite <- !app_assoc. reflexivity.
Qed.

Lemma escritas_nada (rede : nat -> string -> Download) (abre : string -> bool)
    (itens : list Link) (idx : nat) (d : gmap string (list Byte.byte)) :
  (forall k item, itens !! k = Some item ->
     efeito rede abre (idx + k) item = NadaEscrito) ->
  escritas rede abre idx itens d = d /\
  Forall (fun linha => e_falha linha = true) (linhas rede abre idx itens).
Proof.
  revert idx d. induction itens as [|item resto IH]; intros idx d H; simpl.
  - split; [reflexivity | constructor].
  - pose proof (H 0 item eq_refl) as H0. rewrite Nat.add_0_r in H0.
    assert (Hresto : forall k x, resto !! k = Some x ->
              efeito rede abre (S idx + k) x = NadaEscrito).
    { intros k x Hk. replace (S idx + k) with (idx + S k) by lia. now apply H. }
    destruct (IH (S idx) d Hresto) as [He Hl]. unfold linha. rewrite H0.
    split; [exact He |]. constructor; [reflexivity | exact Hl].
Qed.

Section Clique.

Variable rede : nat -> string -> Download.
Variable abre : string -> bool.

(** X11. The handler ends without an exception whatever the downloads and
    the cleanup do, and it offers the download button exactly when
    discovery returned at least one link: no button for an empty list, one
    button otherwise, even if every download failed. *)
Theorem botao_so_com_links (links : list Link) (temp_dir : string)
    (agora : DataHora) (limpeza : option string) :
  snd (ao_clicar links temp_dir agora rede abre limpeza) = None /\
  length (List.filter e_botao
            (fst (ao_clicar links temp_dir agora rede abre limpeza))) =
    match links with
    | [] => 0
    | _ :: _ => 1
    end.
Proof.
  destruct links as [|l resto]; [split; reflexivity |].
  rewrite ao_clicar_com_links. cbn [fst snd]. split; [reflexivity |].
  rewrite !List.filter_app.
  rewrite (filter_map_sem e_botao StProgress) by reflexivity.
  rewrite (filter_map_sem e_botao StWrite) by reflexivity.
  now destruct limpeza.
Qed.

(** X12. When discovery returned links and every download fails before its
    destination is opened, the handler still reports the run as complete
    and offers the download button, with an archive that has no member;
    every outcome line it shows is a failure line. *)
Theorem tudo_falha_pacote_vazio (l : Link) (resto : list Link)
    (temp_dir : string) (agora : DataHora) (limpeza : option string) :
  (forall k item, (l :: resto) !! k = Some item ->
     efeito rede abre k item = NadaEscrito) ->
  let eventos := fst (ao_clicar (l :: resto) temp_dir agora rede abre limpeza) in
  snd (ao_clicar (l :: resto) temp_dir agora rede abre limpeza) = None /\
  In (StatusUpdate "Processamento Concluído!" "complete") eventos /\
  In (StSuccess "Pacote pronto para download.") eventos /\
  (exists nome,
     In (StDownloadButton "📥 BAIXAR PACOTE UNIFICADO (.ZIP)" ∅ nome
           "application/zip") eventos) /\
  Forall (fun linha => In (StWrite linha) eventos /\ e_falha linha = true)
    (linhas rede abre 0 (l :: resto)).
Proof.
  intros Hnada eventos. subst eventos. rewrite ao_clicar_com_links. cbn [fst snd].
  destruct (escritas_nada rede abre (l :: resto) 0 ∅ Hnada) as [He Hl].
  rewrite He. split; [reflexivity |].
  split; [| split; [| split]].
  - apply in_or_app. left. do 3 (apply in_or_app; right). simpl. auto.
  - apply in_or_app. left. do 3 (apply in_or_app; right). simpl. auto.
  - eexists. apply in_or_app. left. do 3 (apply in_or_app; right). simpl. auto.
  - rewrite List.Forall_forall in *. intros linha Hin. split; [| now apply Hl].
    apply in_or_app. left. do 2 (apply in_or_app; right).
    apply in_or_app. left. now apply in_map.
Qed.

(** X13. A cleanup that raises changes nothing on the page: with or
    without the exception of [rmtree] the handler ends normally with the
    same events up to the last one, which is the warning in one case and
    the information record in the other, both written to the log only. *)
Theorem limpeza_nao_muda_a_tela (l : Link) (resto : list Link)
    (temp_dir : string) (agora : DataHora) (e : string) :
  let com_erro := ao_clicar (l :: resto) temp_dir agora rede abre (Some e) in
  let sem_erro := ao_clicar (l :: resto) temp_dir agora rede abre None in
  snd com_erro = None /\ snd sem_erro = None /\
  removelast (fst com_erro) = removelast (fst sem_erro) /\
  List.filter (fun ev => negb (e_logger ev)) (fst com_erro) =
    List.filter (fun ev => negb (e_logger ev)) (fst sem_erro) /\
  last (fst com_erro) =
    Some (LoggerWarning ("Não foi possível limpar temp: " +:+ e)) /\
  last (fst sem_erro) = Some (LoggerInfo ("Limpeza realizada: " +:+ temp_dir)).
Proof.
  intros com_erro sem_erro. subst com_erro sem_erro.
  rewrite !ao_clicar_com_links. cbn [fst snd].
  split; [reflexivity |]. split; [reflexivity |].
  rewrite !removelast_last, !last_snoc, !List.filter_app.
  repeat split; reflexivity.
Qed.

End Clique.

(** The configured file names are plain: each denotes the file of that
    name in [download_dir]. *)
Lemma destino_configurado (fname : string) :
  In fname nomes_configurados -> destino fname = Membro fname.
Proof.
  intros H. apply destino_simples. simpl in H.
  destruct H as [<- | [<- | [<- | [<- | []]]]]; reflexivity.
Qed.

Section CliqueDePontaAPonta.

Variable urljoin : string -> string -> option string.
Variable rede : nat -> string -> Download.
Variable abre : string -> bool.

Lemma filename_configurado (web : string -> Resposta) (ts : list Tarefa) (l : Link) :
  In l (links_para_baixar (varrer urljoin web ts)) ->
  In (filename l) (map snd (concat (map alvos ts))).
Proof.
  rewrite links_varrer, in_concat.
  intros (c & Hc & Hl). apply in_map_iff in Hc. destruct Hc as (t & <- & Ht).
  unfold contribuicao, corpo_try in Hl.
  destruct (web (url t)) as [|status_code ancoras]; [destruct Hl |].
  destruct (raise_for_status status_code); [destruct Hl |].
  destruct (varrer_alvos_origem urljoin t ancoras _ _ l Hl)
    as [[] | (termo & nf & Hin & Hv)].
  destruct (varrer_links_achou urljoin t termo nf ancoras l Hv)
    as (_ & _ & _ & _ & Hf & _).
  apply in_map_iff. exists (termo, nf). split; [now rewrite Hf |].
  apply in_concat. exists (alvos t). split; [| exact Hin].
  now apply in_map.
Qed.

Lemma length_links_varrer (web : string -> Resposta) (ts : list Tarefa) :
  length (links_para_baixar (varrer urljoin web ts)) <=
  length (concat (map alvos ts)).
Proof.
  rewrite links_varrer. induction ts as [|t ts IH]; simpl; [lia |].
  rewrite !length_app. pose proof (length_contribuicao urljoin web t). lia.
Qed.

(** X14. When the fetch of every page of the script fails, the click ends
    on the error state: the status turns to error with the message that
    nothing was found, no download is attempted (the outcome does not
    depend on the download network), no archive is built and no button is
    offered. *)
Theorem sem_paginas_sem_pacote (web : string -> Resposta) (temp_dir : string)
    (agora : DataHora) (limpeza : option string) :
  (forall t, In t tarefas -> busca_falhou (web (url t)) = true) ->
  clique urljoin web temp_dir agora rede abre limpeza =
    ([ StStatus "Processando...";
       StWrite "🔍 Verificando site do IMAC...";
       StatusUpdate "Nenhum link encontrado ou erro de conexão." "error";
       StError "Não foi possível localizar os arquivos. Verifique os logs." ],
     None).
Proof.
  intros Hfalha. unfold clique, obter_links_download.
  rewrite links_varrer. simpl.
  rewrite (contribuicao_falha urljoin web tarefa_licenciamento)
    by (apply Hfalha; simpl; auto).
  rewrite (contribuicao_falha urljoin web tarefa_fiscalizacao)
    by (apply Hfalha; simpl; auto).
  reflexivity.
Qed.

(** X15. Whatever the pages and the downloads, the archive behind a
    download button of a click only has members named by the targets of
    the script ([imac_supressao.zip], [imac_uso_alternativo.zip],
    [imac_embargos_2025.zip], [imac_embargos_2024.zip]), at most four of
    them, and it is offered as [application/zip]. *)
Theorem pacote_so_tem_nomes_configurados (web : string -> Resposta)
    (temp_dir : string) (agora : DataHora) (limpeza : option string)
    (label : string) (data : gmap string (list Byte.byte))
    (file_name mime : string) :
  In (StDownloadButton label data file_name mime)
     (fst (clique urljoin web temp_dir agora rede abre limpeza)) ->
  (forall f, f ∈ dom data -> In f nomes_configurados) /\
  size data <= 4 /\
  mime = "application/zip".
Proof.
  unfold clique. intros Hin.
  pose proof (length_links_varrer web tarefas) as Hlen.
  pose proof (filename_configurado web tarefas) as Hnomes.
  change (links_para_baixar (varrer urljoin web tarefas))
    with (obter_links_download urljoin web) in Hlen, Hnomes.
  destruct (obter_links_download urljoin web) as [|l resto] eqn:Hlinks.
  - simpl in Hin. intuition discriminate.
  - rewrite ao_clicar_com_links in Hin. cbn [fst] in Hin.
    assert (Hb : StDownloadButton label data file_name mime =
                 StDownloadButton "📥 BAIXAR PACOTE UNIFICADO (.ZIP)"
                   (escritas rede abre 0 (l :: resto) ∅)
                   (basename (temp_dir +:+ "/" +:+
                              ("Geodata_IMAC_" +:+ strftime_Ymd_HM agora) +:+ ".zip"))
                   "application/zip").
    { apply in_app_or in Hin. destruct Hin as [Hin | Hin].
      - apply in_app_or in Hin. destruct Hin as [Hin | Hin];
          [simpl in Hin; intuition discriminate |].
        apply in_app_or in Hin. destruct Hin as [Hin | Hin].
        + apply in_map_iff in Hin. destruct Hin as (q & Hq & _). discriminate.
        + apply in_app_or in Hin. destruct Hin as [Hin | Hin].
          * apply in_map_iff in Hin. destruct Hin as (q & Hq & _). discriminate.
          * simpl in Hin. destruct Hin as [H | [H | [H | []]]];
              try discriminate. now symmetry.
      - simpl in Hin. destruct Hin as [H | []]. destruct limpeza; discriminate. }
    injection Hb as _ -> _ ->. split; [| split; [| reflexivity]].
    + intros f Hf.
      apply (proj1 (dom_escritas_abriu rede abre f (l :: resto) 0 ∅)) in Hf.
      destruct Hf as [Hf | (k & item & Hk & Hd & _)].
      * apply elem_of_dom in Hf. destruct Hf as [x Hx].
        rewrite lookup_empty in Hx. discriminate.
      * assert (Hc : In (filename item) nomes_configurados).
        { apply Hnomes, list_elem_of_In. now apply (list_elem_of_lookup_2 _ k). }
        rewrite (destino_configurado _ Hc) in Hd. injection Hd as <-. exact Hc.
    + pose proof (size_escritas rede abre (l :: resto) 0 ∅) as Hs.
      rewrite map_size_empty in Hs. simpl in Hlen.
      etransitivity; [exact Hs |]. simpl. lia.
Qed.

End CliqueDePontaAPonta.

(** X8 on four links: one file name climbs to [temp_dir] and one spells
    [imac_supressao.zip] with a leading ["./"]; the archive has the two
    members [imac_supressao.zip] and [imac_uso_alternativo.zip]. *)
Lemma membros_do_pacote_witness :
  exists s,
    processar_downloads "/tmp/tmpq1" agora_exemplo rede_boa sempre_abre
      [link_a; link_fora_a; link_b; link_ponto] = inr s /\
    dom (membros_zip s) = {[ "imac_supressao.zip"; "imac_uso_alternativo.zip" ]} /\
    size (membros_zip s) <= 4.
Proof.
  assert (Hs : Forall (fun item => seguido (filename item) = true)
                 [link_a; link_fora_a; link_b; link_ponto]) by (repeat constructor).
  destruct (membros_do_pacote rede_boa sempre_abre "/tmp/tmpq1" agora_exemplo
              [link_a; link_fora_a; link_b; link_ponto] Hs)
    as (s & Hp & Hiff & _ & Hsize & _).
  exists s. split; [exact Hp |]. split; [| exact Hsize].
  apply set_eq. intros f. rewrite Hiff. rewrite elem_of_union, !elem_of_singleton.
  split.
  - intros (k & item & Hk & Hd & _).
    destruct k as [|[|[|[|k]]]]; simpl in Hk; try discriminate;
      injection Hk as <-; vm_compute in Hd; try discriminate;
      injection Hd as <-; auto.
  - intros [-> | ->].
    + exists 0, link_a. repeat split.
    + exists 2, link_b. repeat split.
Defined.

(** X9 on three links whose first and third write [imac_supressao.zip],
    the third under the spelling [./imac_supressao.zip]: the first download
    finishes, the third is cut after three bytes. *)
Lemma download_cortado_sobrescreve_witness :
  exists s,
    processar_downloads "/tmp/tmpq1" agora_exemplo rede_quarto_cortado sempre_abre
      ([] ++ link_a :: [link_b] ++ link_ponto :: []) = inr s /\
    escritas rede_quarto_cortado sempre_abre 0 ([] ++ [link_a]) ∅
      !! "imac_supressao.zip" = Some (list_byte_of_string "https://imac.ac.gov.br/a") /\
    membros_zip s !! "imac_supressao.zip" = Some (list_byte_of_string "PK.") /\
    logs s !! length (@nil Link) = Some (linha_sucesso link_a) /\
    logs s !! (length (@nil Link) + S (length [link_b])) =
      Some (linha_falha link_ponto).
Proof.
  apply (download_cortado_sobrescreve rede_quarto_cortado sempre_abre
           "/tmp/tmpq1" agora_exemplo [] [link_b] [] link_a link_ponto
           "imac_supressao.zip"
           (list_byte_of_string "https://imac.ac.gov.br/a")).
  - reflexivity.
  - reflexivity.
  - reflexivity.
  - reflexivity.
  - constructor.
Defined.

Lemma data_valida_exemplos :
  data_valida agora_exemplo /\ data_valida agora_mesmo_minuto.
Proof. unfold data_valida. simpl. lia. Qed.

(** X10 on two clocks of the same minute, 09:05:59 and 09:05:07, in two
    temporary directories: the base names are the same. *)
Lemma nome_distingue_o_minuto_witness :
  exists sa sb,
    processar_downloads "/tmp/tmpq1" agora_exemplo rede_boa sempre_abre [link_a] = inr sa /\
    processar_downloads "/tmp/tmpz9" agora_mesmo_minuto rede_boa sempre_abre [link_a] = inr sb /\
    basename (caminho_zip sa) = basename (caminho_zip sb).
Proof.
  destruct (nome_distingue_o_minuto "/tmp/tmpq1" "/tmp/tmpz9" agora_exemplo
              agora_mesmo_minuto rede_boa sempre_abre [link_a]
              (proj1 data_valida_exemplos) (proj2 data_valida_exemplos))
    as (sa & sb & Ha & Hb & Hnome & _).
  exists sa, sb. split; [exact Ha |]. split; [exact Hb |].
  apply Hnome. reflexivity.
Defined.

(** X12 on two links when no download is answered. *)
Lemma tudo_falha_pacote_vazio_witness :
  let eventos :=
    fst (ao_clicar (link_a :: [link_b]) "/tmp/tmpq1" agora_exemplo rede_muda
           sempre_abre None) in
  snd (ao_clicar (link_a :: [link_b]) "/tmp/tmpq1" agora_exemplo rede_muda
         sempre_abre None) = None /\
  In (StatusUpdate "Processamento Concluído!" "complete") eventos /\
  In (StSuccess "Pacote pronto para download.") eventos /\
  (exists nome,
     In (StDownloadButton "📥 BAIXAR PACOTE UNIFICADO (.ZIP)" ∅ nome
           "application/zip") eventos) /\
  Forall (fun linha => In (StWrite linha) eventos /\ e_falha linha = true)
    (linhas rede_muda sempre_abre 0 (link_a :: [link_b])).
Proof.
  apply (tudo_falha_pacote_vazio rede_muda sempre_abre link_a [link_b]
           "/tmp/tmpq1" agora_exemplo None).
  intros k item _. reflexivity.
Defined.

(** X14 when no page request is answered. *)
Lemma sem_paginas_sem_pacote_witness :
  clique urljoin_exemplo web_fora_do_ar "/tmp/tmpq1" agora_exemplo rede_boa
    sempre_abre None =
    ([ StStatus "Processando...";
       StWrite "🔍 Verificando site do IMAC...";
       StatusUpdate "Nenhum link encontrado ou erro de conexão." "error";
       StError "Não foi possível localizar os arquivos. Verifique os logs." ],
     None).
Proof.
  apply (sem_paginas_sem_pacote urljoin_exemplo rede_boa sempre_abre
           web_fora_do_ar "/tmp/tmpq1" agora_exemplo None).
  intros t _. reflexivity.
Defined.

(** X15 when both pages are served and every download finishes: the
    button of the click carries an archive of four members. *)
Lemma pacote_so_tem_nomes_configurados_witness :
  (forall f,
     f ∈ dom (escritas rede_boa sempre_abre 0
                (obter_links_download urljoin_exemplo web_no_ar) ∅) ->
     In f nomes_configurados) /\
  size (escritas rede_boa sempre_abre 0
          (obter_links_download urljoin_exemplo web_no_ar) ∅) <= 4 /\
  "application/zip" = "application/zip".
Proof.
  apply (pacote_so_tem_nomes_configurados urljoin_exemplo rede_boa sempre_abre
           web_no_ar "/tmp/tmpq1" agora_exemplo None
           "📥 BAIXAR PACOTE UNIFICADO (.ZIP)"
           (escritas rede_boa sempre_abre 0
              (obter_links_download urljoin_exemplo web_no_ar) ∅)
           "Geodata_IMAC_20261104_0905.zip" "application/zip").
  unfold clique.
  assert (H : obter_links_download urljoin_exemplo web_no_ar =
    [ {| item_url := "https://imac.ac.gov.br/licenciamento/arquivos/supressao_2024.zip";
         filename := "imac_supressao.zip"; origem := "LICENCIAMENTO" |};
      {| item_url := "https://cdn.exemplo.br/uso.ZIP";
         filename := "imac_uso_alternativo.zip"; origem := "LICENCIAMENTO" |};
      {| item_url := "https://imac.ac.gov.br/fiscalizacao-autuacoes/pacote.zip";
         filename := "imac_embargos_2025.zip"; origem := "FISCALIZACAO" |};
      {| item_url := "https://imac.ac.gov.br/fiscalizacao-autuacoes/pacote.zip";
         filename := "imac_embargos_2024.zip"; origem := "FISCALIZACAO" |} ])
    by (vm_compute; reflexivity).
  rewrite H, ao_clicar_com_links. cbn [fst].
  apply in_or_app. left. do 3 (apply in_or_app; right).
  right. right. left. reflexivity.
Defined.

(** ** The text of an anchor and [strip] *)

Lemma is_space_upper_char (c : ascii) : is_space (upper_char c) = is_space c.
Proof. destruct c as [[] [] [] [] [] [] [] []]; reflexivity. Qed.

Lemma so_espacos_upper (s : string) : so_espacos (upper s) = so_espacos s.
Proof.
  induction s as [|c r IH]; simpl; [reflexivity |].
  now rewrite is_space_upper_char, IH.
Qed.

Lemma primeiro_nao_espaco_upper (s : string) :
  primeiro_nao_espaco (upper s) = primeiro_nao_espaco s.
Proof. destruct s as [|c r]; simpl; [reflexivity |]. now rewrite is_space_upper_char. Qed.

Lemma ultimo_nao_espaco_upper (s : string) :
  ultimo_nao_espaco (upper s) = ultimo_nao_espaco s.
Proof.
  induction s as [|c r IH]; [reflexivity |].
  destruct r as [|d t]; simpl in *; [now rewrite is_space_upper_char | exact IH].
Qed.

(** A text of whitespace does not start with a term that ends in another
    character, and contains no such term. *)
Lemma startswith_espacos (b n : string) :
  so_espacos b = true -> ultimo_nao_espaco n = true -> startswith b n = false.
Proof.
  revert b. induction n as [|d n' IH]; intros b Hb Hn; [discriminate |].
  destruct b as [|c b']; [reflexivity |]. simpl in Hb.
  apply andb_true_iff in Hb. destruct Hb as [Hc Hb']. cbn [startswith].
  destruct n' as [|e n''].
  - simpl in Hn. destruct (Ascii.eqb_spec d c) as [->|_]; [| reflexivity].
    now rewrite Hc in Hn.
  - rewrite (IH b' Hb' Hn). apply andb_false_r.
Qed.

Lemma startswith_sufixo_espacos (x b n : string) :
  so_espacos b = true -> ultimo_nao_espaco n = true ->
  startswith (x +:+ b) n = startswith x n.
Proof.
  intros Hb. revert x. induction n as [|d n' IH]; intros x Hn; [discriminate |].
  destruct x as [|c x'].
  - change ("" +:+ b) with b.
    now rewrite (startswith_espacos b (String d n') Hb Hn).
  - cbn [String.append startswith]. destruct n' as [|e n''].
    + reflexivity.
    + now rewrite (IH x' Hn).
Qed.

Lemma contem_espacos (b n : string) :
  so_espacos b = true -> ultimo_nao_espaco n = true -> contem n b = false.
Proof.
  intros Hb Hn. induction b as [|c b' IH]; cbn [contem].
  - destruct n; [discriminate | reflexivity].
  - rewrite (startswith_espacos _ n Hb Hn). simpl in Hb.
    apply andb_true_iff in Hb. now rewrite (IH (proj2 Hb)).
Qed.

Lemma contem_sufixo_espacos (m b n : string) :
  so_espacos b = true -> ultimo_nao_espaco n = true ->
  contem n (m +:+ b) = contem n m.
Proof.
  intros Hb Hn. induction m as [|c m' IH].
  - change ("" +:+ b) with b. rewrite (contem_espacos b n Hb Hn).
    destruct n; [discriminate | reflexivity].
  - change (String c m' +:+ b) with (String c (m' +:+ b)). cbn [contem].
    rewrite IH. f_equal.
    apply (startswith_sufixo_espacos (String c m') b n Hb Hn).
Qed.

Lemma contem_prefixo_espacos (a r n : string) :
  so_espacos a = true -> primeiro_nao_espaco n = true ->
  contem n (a +:+ r) = contem n r.
Proof.
  intros Ha Hn. induction a as [|c a' IH]; [reflexivity |].
  simpl in Ha. apply andb_true_iff in Ha. destruct Ha as [Hc Ha'].
  change (String c a' +:+ r) with (String c (a' +:+ r)). cbn [contem].
  rewrite (IH Ha'). destruct n as [|d n']; [discriminate |].
  cbn [startswith]. simpl in Hn.
  destruct (Ascii.eqb_spec d c) as [->|_]; [now rewrite Hc in Hn | reflexivity].
Qed.

Lemma lstrip_decompoe (s : string) :
  exists a, s = a +:+ lstrip s /\ so_espacos a = true.
Proof.
  induction s as [|c r (a & Ha & Hs)]; [now exists "" |].
  simpl. destruct (is_space c) eqn:Hc.
  - exists (String c a). simpl. rewrite Hc, Hs. now rewrite <- Ha.
  - now exists "".
Qed.

Lemma rstrip_decompoe (s : string) :
  exists b, s = rstrip s +:+ b /\ so_espacos b = true.
Proof.
  induction s as [|c r (b & Hb & Hs)]; [now exists "" |].
  simpl. destruct (rstrip r) as [|d t].
  - simpl in Hb. subst r. destruct (is_space c) eqn:Hc.
    + exists (String c b). simpl. now rewrite Hc, Hs.
    + now exists b.
  - exists b. split; [| exact Hs]. simpl in *. now f_equal.
Qed.

(** X16. For a term and an anchor text of ASCII characters, the term
    having a first and a last character that are no whitespace (as every
    term of the script), stripping the text of the anchor changes nothing
    to the match: [match_found] gives what the same test gives on the text
    as [get_text()] returns it. *)
Theorem strip_nao_muda_o_casamento (termo : string) (link : Ancora) :
  so_ascii termo = true ->
  so_ascii (get_text link) = true ->
  primeiro_nao_espaco termo = true ->
  ultimo_nao_espaco termo = true ->
  match_found termo link =
    contem (upper termo) (upper (href link)) ||
    contem (upper termo) (upper (get_text link)).
Proof.
  intros _ _ Hp Hu. unfold match_found. f_equal. unfold strip.
  destruct (lstrip_decompoe (get_text link)) as (a & Ha & Hsa).
  destruct (rstrip_decompoe (lstrip (get_text link))) as (b & Hb & Hsb).
  rewrite Ha at 2. rewrite Hb at 2. rewrite !upper_app.
  rewrite contem_prefixo_espacos, contem_sufixo_espacos;
    rewrite ?so_espacos_upper, ?primeiro_nao_espaco_upper, ?ultimo_nao_espaco_upper;
    auto.
Qed.

(** X16 on a term of the script and an anchor whose text is wrapped in
    blanks and line ends. *)
Lemma strip_nao_muda_o_casamento_witness :
  match_found "SUPRESSAO"
    {| href := "arquivo.zip"; get_text := String "009" (String "010" " Supressao  ") |} =
  contem (upper "SUPRESSAO") (upper "arquivo.zip") ||
  contem (upper "SUPRESSAO") (upper (String "009" (String "010" " Supressao  "))).
Proof.
  apply (strip_nao_muda_o_casamento "SUPRESSAO"
           {| href := "arquivo.zip";
              get_text := String "009" (String "010" " Supressao  ") |});
    reflexivity.
Defined.

(** A term that ends in a blank is found in the raw text and lost after
    [strip]. *)
Example termo_com_espaco_final :
  match_found "2025 " {| href := "a.zip"; get_text := "Embargos 2025 " |} = false /\
  contem (upper "2025 ") (upper "Embargos 2025 ") = true.
Proof. split; reflexivity. Qed.

(** ** The case of the terms *)

Lemma upper_upper (s : string) : upper (upper s) = upper s.
Proof.
  induction s as [|c r IH]; simpl; [reflexivity |]. rewrite IH. f_equal.
  destruct c as [[] [] [] [] [] [] [] []]; reflexivity.
Qed.

Lemma casa_upper (termo : string) (link : Ancora) :
  casa (upper termo) link = casa termo link.
Proof. unfold casa, match_found. now rewrite upper_upper. Qed.

Lemma casa_lower (termo : string) (link : Ancora) :
  casa (lower termo) link = casa termo link.
Proof. unfold casa, match_found. now rewrite upper_lower. Qed.

(** Written with pairwise distinct keys, a [dict] has the items it was
    written with, in their order. *)
Lemma atribuir_novo (k v : string) (d : list (string * string)) :
  ~ In k (map fst d) -> atribuir k v d = d ++ [(k, v)].
Proof.
  induction d as [|[k' v'] r IH]; simpl; intros Hn; [reflexivity |].
  destruct (String.eqb_spec k' k) as [->|Hne]; [exfalso; apply Hn; now left |].
  rewrite IH; [reflexivity |]. intros H. apply Hn. now right.
Qed.

Lemma dict_de_desde (itens d : list (string * string)) :
  NoDup (map fst (d ++ itens)) ->
  fold_left (fun d kv => atribuir (fst kv) (snd kv) d) itens d = d ++ itens.
Proof.
  revert d. induction itens as [|[k v] resto IH]; intros d Hnd; simpl.
  - now rewrite app_nil_r.
  - rewrite atribuir_novo.
    + rewrite IH; rewrite <- app_assoc; [reflexivity | exact Hnd].
    + rewrite map_app in Hnd. simpl in Hnd.
      apply NoDup_app in Hnd. destruct Hnd as (_ & Hfora & _).
      intros H. apply list_elem_of_In in H. apply (Hfora k H). now left.
Qed.

Lemma dict_de_distintos (itens : list (string * string)) :
  NoDup (map fst itens) -> dict_de itens = itens.
Proof. intros H. unfold dict_de. now rewrite dict_de_desde. Qed.

Lemma NoDup_map_outro {A B C : Type} (f : A -> B) (g : A -> C) (l : list A) :
  (forall x y, f x = f y -> g x = g y) -> NoDup (map g l) -> NoDup (map f l).
Proof.
  intros Hfg. induction l as [|x l IH]; simpl; intros Hnd; [constructor |].
  apply NoDup_cons_1_1 in Hnd as Hx. apply NoDup_cons_1_2 in Hnd as Hl.
  apply NoDup_cons_2; [| now apply IH].
  intros Hin. apply Hx. apply list_elem_of_In in Hin. apply list_elem_of_In.
  apply in_map_iff in Hin. destruct Hin as (y & Hy & Hin).
  apply in_map_iff. exists y. split; [| exact Hin]. symmetry. apply Hfg.
  now symmetry.
Qed.

Section TermosEmOutraCaixa.

Variable urljoin : string -> string -> option string.
Variable f : string -> string.
Hypothesis casa_f : forall termo link, casa (f termo) link = casa termo link.

Lemma varrer_links_com_termos (t : Tarefa) (termo nome_final : string)
    (links : list Ancora) :
  varrer_links urljoin (com_termos f t) (f termo) nome_final links =
  varrer_links urljoin t termo nome_final links.
Proof using casa_f.
  induction links as [|a resto IH]; simpl; [reflexivity |].
  rewrite casa_f. destruct (casa termo a); [reflexivity | exact IH].
Qed.

Lemma varrer_alvos_com_termos (t : Tarefa) (links : list Ancora)
    (itens : list (string * string)) (acc : list Link) :
  varrer_alvos urljoin (com_termos f t) links
    (map (fun alvo => (f (fst alvo), snd alvo)) itens) acc =
  varrer_alvos urljoin t links itens acc.
Proof using casa_f.
  revert acc. induction itens as [|[termo nome_final] resto IH]; intros acc; simpl;
    [reflexivity |].
  rewrite varrer_links_com_termos.
  destruct (varrer_links urljoin t termo nome_final links); auto.
Qed.

(** When the rewritten terms of a source are pairwise distinct, its
    rewritten targets are its targets with the terms rewritten. *)
Lemma alvos_com_termos (t : Tarefa) :
  NoDup (map (fun alvo => f (fst alvo)) (alvos t)) ->
  alvos (com_termos f t) = map (fun alvo => (f (fst alvo), snd alvo)) (alvos t).
Proof using Type.
  intros H. cbn [com_termos alvos]. apply dict_de_distintos.
  now rewrite map_map.
Qed.

Lemma varrer_com_termos (web : string -> Resposta) (ts : list Tarefa) :
  Forall (fun t => NoDup (map (fun alvo => f (fst alvo)) (alvos t))) ts ->
  varrer urljoin web (map (com_termos f) ts) = varrer urljoin web ts.
Proof using casa_f.
  intros Hall. unfold varrer, varrer_de. generalize varredura_inicial.
  induction Hall as [|t ts Ht _ IH]; intros v; simpl; [reflexivity |].
  rewrite <- IH. f_equal. unfold passo, corpo_try.
  rewrite (alvos_com_termos t Ht). cbn [com_termos url].
  destruct (web (url t)) as [|status_code ancoras]; [reflexivity |].
  destruct (raise_for_status status_code); [reflexivity |].
  now rewrite varrer_alvos_com_termos.
Qed.

End TermosEmOutraCaixa.

(** X17. The case in which the terms of the configuration are written does
    not matter, for terms of ASCII characters of which no two of one
    source are equal once in upper case: rewriting every term of every
    source in upper case, or in lower case, keeps every target (the terms
    of each source stay pairwise distinct) and gives the same run of the
    resolver (the same links, the same requests and the same errors) on
    every web. *)
Theorem caixa_dos_termos_nao_importa (urljoin : string -> string -> option string)
    (web : string -> Resposta) (ts : list Tarefa) :
  Forall termos_ascii ts ->
  Forall termos_distintos ts ->
  varrer urljoin web (map (com_termos upper) ts) = varrer urljoin web ts /\
  varrer urljoin web (map (com_termos lower) ts) = varrer urljoin web ts /\
  Forall (fun t => map snd (alvos (com_termos upper t)) = map snd (alvos t) /\
                   map snd (alvos (com_termos lower t)) = map snd (alvos t)) ts.
Proof.
  intros _ Hdist.
  assert (Hlower : Forall (fun t => NoDup (map (fun alvo => lower (fst alvo))
                                             (alvos t))) ts).
  { apply List.Forall_forall. intros t Ht.
    rewrite List.Forall_forall in Hdist. specialize (Hdist t Ht).
    apply (NoDup_map_outro _ (fun alvo => upper (fst alvo))); [| exact Hdist].
    intros x y H. rewrite <- (upper_lower (fst x)), <- (upper_lower (fst y)).
    now rewrite H. }
  split; [| split].
  - apply varrer_com_termos; [apply casa_upper | exact Hdist].
  - apply varrer_com_termos; [apply casa_lower | exact Hlower].
  - apply List.Forall_forall. intros t Ht.
    rewrite List.Forall_forall in Hdist, Hlower.
    rewrite (alvos_com_termos upper t (Hdist t Ht)),
            (alvos_com_termos lower t (Hlower t Ht)).
    rewrite !map_map. split; reflexivity.
Qed.

(** X17 on the sources of the script. *)
Lemma caixa_dos_termos_nao_importa_witness :
  varrer urljoin_exemplo web_no_ar (map (com_termos upper) tarefas) =
    varrer urljoin_exemplo web_no_ar tarefas /\
  varrer urljoin_exemplo web_no_ar (map (com_termos lower) tarefas) =
    varrer urljoin_exemplo web_no_ar tarefas.
Proof.
  assert (Ha : Forall termos_ascii tarefas) by (repeat constructor).
  assert (Hd : Forall termos_distintos tarefas).
  { unfold tarefas, termos_distintos.
    constructor; [| constructor; [| constructor]]; simpl;
      (apply NoDup_cons_2; [| apply NoDup_cons_2; [| apply NoDup_nil_2]]);
      intros H; apply list_elem_of_In in H; simpl in H; intuition discriminate. }
  destruct (caixa_dos_termos_nao_importa urljoin_exemplo web_no_ar tarefas Ha Hd)
    as (Hu & Hl & _).
  split; [exact Hu | exact Hl].
Defined.

(** Two terms that differ by case only are one key once in upper case:
    the rewritten source has one target where the source had two, with
    the file name of the second. *)
Example termos_que_colidem :
  alvos (com_termos upper
           {| nome := "LICENCIAMENTO"; url := "https://imac.ac.gov.br/licenciamento/";
              alvos := [ ("Supressao", "a.zip"); ("SUPRESSAO", "b.zip") ] |}) =
  [ ("SUPRESSAO", "b.zip") ].
Proof. reflexivity. Qed.
